(** * Vector embeddings and retrieval

    A shallow embedding of the embedder ([generateEmbedding]), the metric
    library ([cosineSimilarity], [euclideanDistance]), the in-memory
    document store ([VectorStore]) and the chunker ([chunkText]).

    JavaScript numbers are IEEE 754 binary64 values: they are modelled by
    Rocq's primitive floats, whose operations are the same binary64
    operations.  Strings are sequences of code units; the model covers the
    code units 0..255 (Latin-1), one [ascii] each.  Exceptions are an
    explicit [outcome]; the store is threaded through its methods. *)

From Stdlib Require Import Ascii String.
From Stdlib Require Import ZArith Lia Bool List Floats Uint63.
From Stdlib Require Import Permutation Sorted.
Import ListNotations.

(** ** JavaScript values *)

Definition jsstring := list ascii.

Definition str (s : string) : jsstring := list_ascii_of_string s.

Definition vector := list float.

(** Lengths and counts are integers far below 2^53, which a double holds
    exactly. *)
Definition Number_of_nat (n : nat) : float :=
  PrimFloat.of_uint63 (Uint63.of_Z (Z.of_nat n)).

(** ToBoolean on a number: [+0], [-0] and [NaN] are falsy. *)
Definition truthy (x : float) : bool :=
  negb (PrimFloat.eqb x 0 || PrimFloat.is_nan x).

(** [x || y] *)
Definition JS_or (x y : float) : float := if truthy x then x else y.

Definition Math_sqrt (x : float) : float := PrimFloat.sqrt x.

(** [Math.pow(x, 2)].  ECMAScript leaves the rounding of exponentiation to
    the implementation; the square is taken correctly rounded, which agrees
    with every case ECMAScript fixes (zeros, infinities, NaN). *)
Definition Math_pow2 (x : float) : float := (x * x)%float.

(** [Math.min(a, b)]: NaN if either is NaN, and [-0] below [+0]. *)
Definition Math_min (a b : float) : float :=
  if PrimFloat.is_nan a || PrimFloat.is_nan b then PrimFloat.nan
  else if PrimFloat.ltb a b then a
  else if PrimFloat.ltb b a then b
  else if PrimFloat.is_zero a && PrimFloat.get_sign a then a
  else b.

(** [v[i]]; reading past the end gives [undefined], which is NaN in
    arithmetic. *)
Definition at_index (v : vector) (i : nat) : float := nth i v PrimFloat.nan.

(** Default parameter values: an omitted argument is [None]. *)
Definition default {A : Type} (d : A) (o : option A) : A :=
  match o with Some a => a | None => d end.

(** ** Exceptions *)

Inductive error : Type :=
| Error (message : jsstring).

Inductive outcome (A : Type) : Type :=
| Return (a : A)
| Throw (e : error).

Arguments Return {A} a.
Arguments Throw {A} e.

Definition obind {A B : Type} (m : outcome A) (k : A -> outcome B) : outcome B :=
  match m with
  | Return a => k a
  | Throw e => Throw e
  end.

(** The error both metrics throw on vectors of different lengths. *)
Definition DimensionMismatch : error :=
  Error (str "Vectors must have the same dimensions").

(** ** Strings: the builtins the embedder uses *)

Definition code (c : ascii) : nat := nat_of_ascii c.

Definition in_range (lo hi : nat) (c : ascii) : bool :=
  (lo <=? code c)%nat && (code c <=? hi)%nat.

Definition one_of (chars : string) (c : ascii) : bool :=
  existsb (Ascii.eqb c) (str chars).

(** [/[aeiou]/] *)
Definition is_vowel : ascii -> bool := one_of "aeiou".

(** [/[bcdfghjklmnpqrstvwxyz]/] *)
Definition is_consonant : ascii -> bool := one_of "bcdfghjklmnpqrstvwxyz".

(** [/\d/] *)
Definition is_digit : ascii -> bool := in_range 48 57.

(** [/[.!?]/] *)
Definition is_terminal_punctuation : ascii -> bool := one_of ".!?".

(** [/[A-Z]/] *)
Definition is_uppercase : ascii -> bool := in_range 65 90.

(** [/\s/] on the code units 0..255: tab, line feed, vertical tab, form
    feed, carriage return, space and no-break space. *)
Definition is_whitespace (c : ascii) : bool :=
  in_range 9 13 c || (code c =? 32)%nat || (code c =? 160)%nat.

(** [toLowerCase] on one code unit: A-Z, and the Latin-1 capitals
    U+00C0..U+00DE except the multiplication sign U+00D7. *)
Definition toLowerCase_char (c : ascii) : ascii :=
  if in_range 65 90 c || (in_range 192 222 c && negb (code c =? 215)%nat)
  then ascii_of_nat (code c + 32)
  else c.

Definition toLowerCase (s : jsstring) : jsstring := map toLowerCase_char s.

(** [(s.match(/[class]/g) || []).length]: the number of code units of [s]
    in the class. *)
Definition match_count (class : ascii -> bool) (s : jsstring) : nat :=
  length (filter class s).

(** [s.includes(c)] for a one-character needle. *)
Definition includes (s : jsstring) (c : ascii) : bool :=
  existsb (Ascii.eqb c) s.

(** [s.split(/\s+/)]: the pieces between maximal runs of whitespace.  The
    piece before a leading run and the piece after a trailing run are empty
    strings, and the empty string splits into one empty piece.
    [in_run] tells that the previous code unit was whitespace, [piece] is
    the piece read so far. *)
Fixpoint split_run (in_run : bool) (piece : jsstring) (s : jsstring)
  : list jsstring :=
  match s with
  | [] => [piece]
  | c :: rest =>
      if is_whitespace c then
        if in_run then split_run true piece rest
        else piece :: split_run true [] rest
      else split_run false (piece ++ [c]) rest
  end.

Definition split_whitespace (s : jsstring) : list jsstring :=
  split_run false [] s.

(** ** embeddings.js *)

Definition generateEmbedding (text : jsstring) : vector :=
  let normalized := toLowerCase text in
  let words := split_whitespace normalized in
  [ (Number_of_nat (length words) / 10)%float;
    (Number_of_nat (length normalized) / 50)%float;
    JS_or (Number_of_nat (match_count is_vowel normalized)
           / Number_of_nat (length normalized))%float 0%float;
    JS_or (Number_of_nat (match_count is_consonant normalized)
           / Number_of_nat (length normalized))%float 0%float;
    JS_or (Number_of_nat (match_count is_digit normalized)
           / Number_of_nat (length normalized))%float 0%float;
    JS_or (Number_of_nat (match_count is_terminal_punctuation normalized)
           / Number_of_nat (length words))%float 0%float;
    Math_min
      (if (0 <? length words)%nat
       then (fold_left (fun sum w => (sum + Number_of_nat (length w))%float)
                       words 0%float
             / Number_of_nat (length words) / 10)%float
       else 0%float)
      1%float;
    JS_or (Number_of_nat (match_count is_uppercase normalized)
           / Number_of_nat (length text))%float 0%float;
    if includes text "?"%char then 1%float else 0%float;
    if includes text "!"%char then 1%float else 0%float ].

(** The loop of [cosineSimilarity]: [dotProduct], [magnitudeA] and
    [magnitudeB] after the iterations [0 .. vecA.length - 1]. *)
Definition cosine_step (vecA vecB : vector) (acc : float * float * float)
  (i : nat) : float * float * float :=
  let '(dotProduct, magnitudeA, magnitudeB) := acc in
  ((dotProduct + at_index vecA i * at_index vecB i)%float,
   (magnitudeA + at_index vecA i * at_index vecA i)%float,
   (magnitudeB + at_index vecB i * at_index vecB i)%float).

Definition cosine_loop (vecA vecB : vector) : float * float * float :=
  fold_left (cosine_step vecA vecB) (seq 0 (length vecA))
            (0%float, 0%float, 0%float).

Definition cosineSimilarity (vecA vecB : vector) : outcome float :=
  if negb (length vecA =? length vecB)%nat then Throw DimensionMismatch
  else
    let '(dotProduct, magnitudeA, magnitudeB) := cosine_loop vecA vecB in
    let magnitudeA := Math_sqrt magnitudeA in
    let magnitudeB := Math_sqrt magnitudeB in
    if PrimFloat.eqb magnitudeA 0 || PrimFloat.eqb magnitudeB 0
    then Return 0%float
    else Return (dotProduct / (magnitudeA * magnitudeB))%float.

Definition euclidean_step (vecA vecB : vector) (sum : float) (i : nat) : float :=
  (sum + Math_pow2 (at_index vecA i - at_index vecB i))%float.

Definition euclideanDistance (vecA vecB : vector) : outcome float :=
  if negb (length vecA =? length vecB)%nat then Throw DimensionMismatch
  else
    let sum := fold_left (euclidean_step vecA vecB) (seq 0 (length vecA)) 0%float in
    Return (Math_sqrt sum).

(** The magnitude the loop of [cosineSimilarity] computes for one vector. *)
Definition sum_of_squares (v : vector) : float :=
  fold_left (fun acc x => (acc + x * x)%float) v 0%float.

Definition magnitude (v : vector) : float := Math_sqrt (sum_of_squares v).

(** ** Arrays: the builtins the store uses *)

(** [array.map(f)] with a callback that can throw: the callback runs on the
    elements in index order, and the first exception ends the call. *)
Fixpoint Array_map {A B : Type} (f : A -> outcome B) (l : list A)
  : outcome (list B) :=
  match l with
  | [] => Return []
  | x :: rest =>
      obind (f x) (fun y =>
      obind (Array_map f rest) (fun ys => Return (y :: ys)))
  end.

(** The value of a comparator as [sort] reads it: NaN counts as [+0]. *)
Definition SortCompare (v : float) : float :=
  if PrimFloat.is_nan v then 0%float else v.

(** [array.sort(comparefn)].  The builtin is required to be stable, and for
    a consistent comparator its result is then unique; it is modelled by
    insertion sort.  [x] stood before every element of [sorted] in the
    array: it moves behind [y] only when [comparefn(x, y) > 0]. *)
Fixpoint sort_insert {A : Type} (comparefn : A -> A -> float) (x : A)
  (sorted : list A) : list A :=
  match sorted with
  | [] => [x]
  | y :: rest =>
      if PrimFloat.ltb 0 (SortCompare (comparefn x y))
      then y :: sort_insert comparefn x rest
      else x :: y :: rest
  end.

Definition Array_sort {A : Type} (comparefn : A -> A -> float) (l : list A)
  : list A :=
  fold_right (sort_insert comparefn) [] l.

(** [array.slice(0, end)] for an integer [end]: a negative [end] counts
    from the end of the array. *)
Definition Array_slice0 {A : Type} (l : list A) (end_ : Z) : list A :=
  let len := Z.of_nat (length l) in
  let final := if (end_ <? 0)%Z then Z.max (len + end_) 0 else Z.min end_ len in
  firstn (Z.to_nat final) l.

(** [array.findIndex(p)]: [-1] when no element satisfies [p]. *)
Fixpoint Array_findIndex {A : Type} (p : A -> bool) (l : list A) : Z :=
  match l with
  | [] => (-1)%Z
  | x :: rest =>
      if p x then 0%Z
      else let i := Array_findIndex p rest in
           if (i =? -1)%Z then (-1)%Z else (i + 1)%Z
  end.

(** [array.splice(index, 1)] for an index inside the array. *)
Definition Array_splice1 {A : Type} (l : list A) (index : Z) : list A :=
  firstn (Z.to_nat index) l ++ skipn (S (Z.to_nat index)) l.

(** ** vectorStore.js *)

(** Metadata is an object the store never looks into. *)
#[local] Unset Elimination Schemes.

Inductive json : Type :=
| JNull
| JBool (b : bool)
| JNumber (x : float)
| JString (s : jsstring)
| JArray (items : list json)
| JObject (members : list (jsstring * json)).

#[local] Set Elimination Schemes.

Definition object := list (jsstring * json).

Record document : Type := {
  doc_id : Z;
  doc_text : jsstring;
  doc_embedding : vector;
  doc_metadata : object;
  doc_timestamp : jsstring
}.

(** [{...doc, score: similarity}]: a fresh object with the five properties
    of [doc] and a [score]. *)
Record scored : Type := {
  scored_doc : document;
  score : float
}.

(** [{...doc, distance}] *)
Record distanced : Type := {
  distanced_doc : document;
  distance : float
}.

Record VectorStore : Type := {
  documents : list document;
  nextId : Z
}.

(** A method of the store: it reads and writes [this] and returns or
    throws. *)
Definition method (A : Type) : Type := VectorStore -> outcome A * VectorStore.

Definition ret {A : Type} (a : A) : method A := fun this => (Return a, this).

Definition bind {A B : Type} (m : method A) (k : A -> method B) : method B :=
  fun this =>
    match m this with
    | (Return a, this') => k a this'
    | (Throw e, this') => (Throw e, this')
    end.

(** An exception raised by a callee propagates: nothing in the store
    catches it. *)
Definition call {A : Type} (o : outcome A) : method A := fun this => (o, this).

Definition this_documents : method (list document) :=
  fun this => (Return (documents this), this).

Notation "x <- m ;; k" := (bind m (fun x => k))
  (at level 61, m at next level, right associativity).

(** [new VectorStore()] *)
Definition constructor : VectorStore := {| documents := []; nextId := 1 |}.

(** [n + 1] on the counter, an integer-valued double [n >= 1]: exact
    below 2^53.  From 2^53 on the doubles are 2 apart and [n + 1] lies
    halfway between [n] and [n + 2]: it is rounded to the one with the
    even significand ([n / 2] even: back to [n], so 2^53 + 1 is 2^53;
    [n / 2] odd: [n + 2], so 2^53 + 2 goes to 2^53 + 4).  From 2^54 on
    the doubles are at least 4 apart and [n + 1] rounds back to [n]. *)
Definition increment (n : Z) : Z :=
  if (n <? 2 ^ 53)%Z then (n + 1)%Z
  else if (n <? 2 ^ 54)%Z && Z.odd (n / 2) then (n + 2)%Z
  else n.

(** [now] is [new Date().toISOString()], the reading of the clock. *)
Definition addDocument (text : jsstring) (embedding : vector)
  (metadata : option object) (now : jsstring) : method document :=
  fun this =>
    let document := {| doc_id := nextId this;
                       doc_text := text;
                       doc_embedding := embedding;
                       doc_metadata := default [] metadata;
                       doc_timestamp := now |} in
    (Return document,
     {| documents := documents this ++ [document];
        nextId := increment (nextId this) |}).

(** The searches read [this.documents] and write nothing: [map],
    [filter] and [slice] return fresh arrays, the spread builds a fresh
    object, and [sort] sorts the array that [filter] returned. *)

(** The callback of [map] in [search]. *)
Definition score_document (queryEmbedding : vector) (doc : document)
  : outcome scored :=
  obind (cosineSimilarity queryEmbedding (doc_embedding doc))
        (fun similarity => Return {| scored_doc := doc; score := similarity |}).

Definition search (queryEmbedding : vector) (topK : option Z)
  (threshold : option float) : method (list scored) :=
  let topK := default 5%Z topK in
  let threshold := default 0%float threshold in
  docs <- this_documents ;;
  results <- call (Array_map (score_document queryEmbedding) docs) ;;
  ret (Array_slice0
         (Array_sort (fun a b => (score b - score a)%float)
            (filter (fun result => PrimFloat.leb threshold (score result))
                    results))
         topK).

(** The callback of [map] in [searchByDistance]. *)
Definition measure_document (queryEmbedding : vector) (doc : document)
  : outcome distanced :=
  obind (euclideanDistance queryEmbedding (doc_embedding doc))
        (fun distance => Return {| distanced_doc := doc; distance := distance |}).

Definition searchByDistance (queryEmbedding : vector) (topK : option Z)
  (maxDistance : option float) : method (list distanced) :=
  let topK := default 5%Z topK in
  let maxDistance := default PrimFloat.infinity maxDistance in
  docs <- this_documents ;;
  results <- call (Array_map (measure_document queryEmbedding) docs) ;;
  ret (Array_slice0
         (Array_sort (fun a b => (distance a - distance b)%float)
            (filter (fun result => PrimFloat.leb (distance result) maxDistance)
                    results))
         topK).

(** [null] is [None]. *)
Definition getDocument (id : Z) : method (option document) :=
  fun this => (Return (find (fun doc => (doc_id doc =? id)%Z) (documents this)), this).

Definition deleteDocument (id : Z) : method bool :=
  fun this =>
    let index := Array_findIndex (fun doc => (doc_id doc =? id)%Z) (documents this) in
    if negb (index =? -1)%Z
    then (Return true,
          {| documents := Array_splice1 (documents this) index;
             nextId := nextId this |})
    else (Return false, this).

Definition getAllDocuments : method (list document) := this_documents.

Definition clear : method unit :=
  fun _ => (Return tt, {| documents := []; nextId := 1 |}).

(** ** TextChunking.js *)

Record chunk_record : Type := {
  chunk_id : nat;
  chunk : jsstring
}.

(** [text.slice(i, j)] for [0 <= i <= j]; the end is clipped to the
    length. *)
Definition String_slice (text : jsstring) (i j : nat) : jsstring :=
  firstn (j - i) (skipn i text).

(** The [for] loop of [chunkText], one iteration per unit of [fuel]:
    [None] when the fuel runs out before the loop ends. *)
Fixpoint chunkText_loop (fuel : nat) (text : jsstring)
  (charactersPerChunk i : nat) (chunkArray : list chunk_record)
  : option (list chunk_record) :=
  if (i <? length text)%nat then
    match fuel with
    | O => None
    | S fuel' =>
        let chunk := String_slice text i (i + charactersPerChunk) in
        chunkText_loop fuel' text charactersPerChunk (i + charactersPerChunk)
          (chunkArray ++ [{| chunk_id := length chunkArray + 1; chunk := chunk |}])
    end
  else Some chunkArray.

Definition chunkText (fuel : nat) (text : jsstring) (charactersPerChunk : nat)
  : option (list chunk_record) :=
  chunkText_loop fuel text charactersPerChunk 0 [].

(** ** Requests to one store *)

Inductive request : Type :=
| AddDocument (text : jsstring) (embedding : vector) (metadata : option object)
              (now : jsstring)
| DeleteDocument (id : Z)
| GetDocument (id : Z)
| Search (queryEmbedding : vector) (topK : option Z) (threshold : option float)
| SearchByDistance (queryEmbedding : vector) (topK : option Z)
                   (maxDistance : option float).

(** One request: the ids it assigned, and the store after it. *)
Definition serve (r : request) (this : VectorStore) : list Z * VectorStore :=
  match r with
  | AddDocument text embedding metadata now =>
      match addDocument text embedding metadata now this with
      | (Return document, this') => ([doc_id document], this')
      | (Throw _, this') => ([], this')
      end
  | DeleteDocument id => ([], snd (deleteDocument id this))
  | GetDocument id => ([], snd (getDocument id this))
  | Search q topK threshold => ([], snd (search q topK threshold this))
  | SearchByDistance q topK maxDistance =>
      ([], snd (searchByDistance q topK maxDistance this))
  end.

Fixpoint serve_all (rs : list request) (this : VectorStore)
  : list Z * VectorStore :=
  match rs with
  | [] => ([], this)
  | r :: rest =>
      let '(ids, this') := serve r this in
      let '(ids', this'') := serve_all rest this' in
      (ids ++ ids', this'')
  end.

Definition is_addition (r : request) : bool :=
  match r with AddDocument _ _ _ _ => true | _ => false end.

Definition additions (rs : list request) : nat :=
  length (filter is_addition rs).

(** ** Vocabulary of the properties *)

(** [r] is the search result for the stored record [d]: the record's own
    fields and its cosine similarity to the query. *)
Definition scored_by (queryEmbedding : vector) (d : document) (r : scored) : Prop :=
  scored_doc r = d /\
  cosineSimilarity queryEmbedding (doc_embedding d) = Return (score r).

Definition distanced_by (queryEmbedding : vector) (d : document) (r : distanced)
  : Prop :=
  distanced_doc r = d /\
  euclideanDistance queryEmbedding (doc_embedding d) = Return (distance r).

Definition same_dimension (queryEmbedding : vector) (d : document) : Prop :=
  length (doc_embedding d) = length queryEmbedding.

(** [Number.isFinite(x)] *)
Definition Number_isFinite (x : float) : bool :=
  match Prim2SF x with
  | S754_zero _ | S754_finite _ _ _ => true
  | S754_infinity _ | S754_nan => false
  end.

(** [ceil(L / n)] on natural numbers. *)
Definition ceil_div (L n : nat) : nat := (L + n - 1) / n.

(** The value the specification gives component 8: the uppercase letters
    of the original text over its length, and 0 for the empty text. *)
Definition uppercase_ratio_of_original (text : jsstring) : float :=
  if (length text =? 0)%nat then 0%float
  else (Number_of_nat (match_count is_uppercase text)
        / Number_of_nat (length text))%float.

(** Sample inputs. *)
Definition sample_document (id : Z) (embedding : vector) : document :=
  {| doc_id := id; doc_text := str "text"; doc_embedding := embedding;
     doc_metadata := []; doc_timestamp := str "2024-01-01T00:00:00.000Z" |}.

Definition sample_store (embeddings : list vector) : VectorStore :=
  {| documents := map (fun '(i, e) => sample_document (Z.of_nat i) e)
                      (combine (seq 1 (length embeddings)) embeddings);
     nextId := Z.of_nat (length embeddings) + 1 |}.

(** ** Binary64 data in order

    An integer image of the binary64 data that respects their order: a
    finite [m * 2^e] is scaled by [2^1074] (the least exponent is -1074),
    and the infinities sit beyond every finite value. *)

Definition bias : Z := 1074.

Definition top : Z := 2 ^ 2100.

Definition SF2Z (x : spec_float) : Z :=
  match x with
  | S754_zero _ => 0
  | S754_nan => 0
  | S754_infinity s => cond_Zopp s top
  | S754_finite s m e => cond_Zopp s (Zpos m * 2 ^ (e + bias))
  end.

Definition SFis_nan (x : spec_float) : bool :=
  match x with S754_nan => true | _ => false end.

(** [r] is an infinity or a finite non-zero datum of sign [s]. *)
Definition SFsigned (s : bool) (r : spec_float) : Prop :=
  match r with
  | S754_infinity s' | S754_finite s' _ _ => s' = s
  | _ => False
  end.

Definition rank (x : float) : Z := SF2Z (Prim2SF x).

(** Stable insertion sort by an integer key, ascending. *)
Fixpoint insert_by_key {A : Type} (key : A -> Z) (x : A) (sorted : list A)
  : list A :=
  match sorted with
  | [] => [x]
  | y :: rest =>
      if (key y <? key x)%Z then y :: insert_by_key key x rest
      else x :: y :: rest
  end.

Definition sort_by_key {A : Type} (key : A -> Z) (l : list A) : list A :=
  fold_right (insert_by_key key) [] l.

Definition key_le {A : Type} (key : A -> Z) (a b : A) : Prop :=
  (key a <= key b)%Z.

(** The value of [a] is not NaN. *)
Definition is_number {A : Type} (value : A -> float) (a : A) : Prop :=
  PrimFloat.is_nan (value a) = false.

(** ** The rest of vectorStore.js *)

Record stats : Type := {
  totalDocuments : nat;
  dimensions : nat
}.

Definition getStats : method stats :=
  fun this =>
    (Return {| totalDocuments := length (documents this);
               dimensions := match documents this with
                             | first :: _ => length (doc_embedding first)
                             | [] => 0
                             end |},
     this).

(** ** Vocabulary of the further properties *)

(** The ids of the stored records rise in store order and lie between 1
    and the next id, which has not passed 2^53. *)
Definition ids_in_order (this : VectorStore) : Prop :=
  StronglySorted Z.lt (map doc_id (documents this)) /\
  Forall (fun d => (1 <= doc_id d < nextId this)%Z) (documents this) /\
  (1 <= nextId this <= 2 ^ 53)%Z.

(** The request stores, if anything, the embedding that
    [generateEmbedding] gives its text, as test.js and server.js do. *)
Definition from_embedder (r : request) : Prop :=
  match r with
  | AddDocument text embedding _ _ => embedding = generateEmbedding text
  | _ => True
  end.

(** The [k]-th window of [n] characters, with the id [chunkText] gives
    it (windows are counted from 0, ids from 1). *)
Definition window (text : jsstring) (n k : nat) : chunk_record :=
  {| chunk_id := k + 1; chunk := String_slice text (k * n) (k * n + n) |}.

(** [small] is an initial part of [big]. *)
Definition prefix_of {A : Type} (small big : list A) : Prop :=
  exists n, small = firstn n big.

(** A binary64 datum that is a number and not below zero: a zero, a
    positive finite datum or [+Infinity]. *)
Definition SFnot_negative (x : spec_float) : Prop :=
  match x with
  | S754_zero _ | S754_infinity false | S754_finite false _ _ => True
  | _ => False
  end.

(** A binary64 datum with its sign left out is a zero, an infinity or a
    finite datum of sign [s], never NaN. *)
Definition SFof_sign (s : bool) (x : spec_float) : Prop :=
  match x with
  | S754_zero s' | S754_infinity s' | S754_finite s' _ _ => s' = s
  | S754_nan => False
  end.

(** A binary64 datum that is a zero, or finite with a magnitude below
    [2^B]. *)
Definition SFbelow (B : Z) (x : spec_float) : Prop :=
  match x with
  | S754_zero _ => True
  | S754_finite _ m e =>
      (e <= 971)%Z /\ exists K, (0 <= K)%Z /\ (Zpos m < 2 ^ K)%Z /\ (K + e <= B)%Z
  | _ => False
  end.

(** A finite binary64 datum with a magnitude of 1 or more. *)
Definition SFone_or_more (x : spec_float) : Prop :=
  match x with
  | S754_finite _ m e =>
      exists J, (0 <= J)%Z /\ (2 ^ J <= Zpos m)%Z /\ (0 <= J + e)%Z
  | _ => False
  end.


(** The request stores, if anything, a text of fewer than 2^53 code
    units (every JS string is that short). *)
Definition of_short_text (r : request) : Prop :=
  match r with
  | AddDocument text _ _ _ => (Z.of_nat (length text) < 2 ^ 53)%Z
  | _ => True
  end.
(** * Properties *)

(** ** The order of binary64 data *)

Section Binary64Order.

Local Open Scope Z_scope.

Lemma pow2_double k : 0 <= k -> 2 ^ (k + 1) = 2 * 2 ^ k.
Proof. intros H. rewrite Z.pow_add_r by lia. rewrite Z.pow_1_r. lia. Qed.

Lemma digits2_pos_bounds m :
  2 ^ (Zpos (digits2_pos m) - 1) <= Zpos m < 2 ^ Zpos (digits2_pos m).
Proof.
  induction m as [p IH|p IH|]; cbn [digits2_pos].
  - rewrite Pos2Z.inj_succ. unfold Z.succ.
    replace (Zpos (digits2_pos p) + 1 - 1) with (Zpos (digits2_pos p) - 1 + 1) by lia.
    rewrite !pow2_double by lia. lia.
  - rewrite Pos2Z.inj_succ. unfold Z.succ.
    replace (Zpos (digits2_pos p) + 1 - 1) with (Zpos (digits2_pos p) - 1 + 1) by lia.
    rewrite !pow2_double by lia. lia.
  - cbn. lia.
Qed.

Lemma bounded_inv m e :
  bounded prec emax m e = true ->
  -1074 <= e <= 971 /\ Zpos (digits2_pos m) <= 53 /\
  (e = -1074 \/ Zpos (digits2_pos m) = 53).
Proof.
  unfold bounded, canonical_mantissa, fexp.
  rewrite andb_true_iff, Z.eqb_eq, Z.leb_le.
  change (SpecFloat.emin prec emax) with (-1074).
  change prec with 53. change emax with 1024.
  lia.
Qed.

(** Every finite binary64 datum is below [top] in magnitude: its
    significand is below 2^53 and its scaled exponent is at most 2045. *)
Lemma top_split : top = 4 * (2 ^ 53 * 2 ^ 2045).
Proof.
  unfold top. change 2100 with (2 + (53 + 2045)).
  rewrite !Z.pow_add_r by lia. reflexivity.
Qed.

Lemma top_pos : 0 < top.
Proof. apply Z.pow_pos_nonneg; lia. Qed.

#[local] Opaque top.

Lemma finite_range m e :
  bounded prec emax m e = true ->
  0 < Zpos m * 2 ^ (e + bias) < top.
Proof.
  intros Hb. apply bounded_inv in Hb. destruct Hb as (He & Hd & _).
  pose proof (digits2_pos_bounds m) as [_ Hm].
  assert (H53 : 2 ^ Zpos (digits2_pos m) <= 2 ^ 53)
    by (apply Z.pow_le_mono_r; lia).
  assert (HP : 0 < 2 ^ (e + bias))
    by (apply Z.pow_pos_nonneg; unfold bias; lia).
  assert (HQ : 2 ^ (e + bias) <= 2 ^ 2045)
    by (apply Z.pow_le_mono_r; unfold bias; lia).
  rewrite top_split.
  assert (H0 : 0 < 2 ^ 53) by (apply Z.pow_pos_nonneg; lia).
  split; [lia|].
  assert (Zpos m * 2 ^ (e + bias) < 2 ^ 53 * 2 ^ 2045).
  { apply Z.le_lt_trans with (Zpos m * 2 ^ 2045).
    - apply Z.mul_le_mono_nonneg_l; lia.
    - apply Z.mul_lt_mono_pos_r; lia. }
  lia.
Qed.

(** Of two finite data in canonical form, the one with the larger
    exponent is the larger. *)
Lemma finite_exponent_order m1 e1 m2 e2 :
  bounded prec emax m1 e1 = true ->
  bounded prec emax m2 e2 = true ->
  e1 < e2 ->
  Zpos m1 * 2 ^ (e1 + bias) < Zpos m2 * 2 ^ (e2 + bias).
Proof.
  intros H1 H2 Hlt.
  apply bounded_inv in H1, H2.
  destruct H1 as (He1 & Hd1 & _), H2 as (He2 & _ & Hc2).
  destruct Hc2 as [Hc2|Hc2]; [lia|].
  pose proof (digits2_pos_bounds m1) as [_ Hm1].
  pose proof (digits2_pos_bounds m2) as [Hm2 _].
  rewrite Hc2 in Hm2.
  assert (H53 : 2 ^ Zpos (digits2_pos m1) <= 2 ^ 53)
    by (apply Z.pow_le_mono_r; lia).
  change (2 ^ (53 - 1)) with (2 ^ 52) in Hm2.
  assert (Hs : 2 ^ 53 = 2 * 2 ^ 52) by reflexivity.
  assert (HP : 0 < 2 ^ (e1 + bias))
    by (apply Z.pow_pos_nonneg; unfold bias; lia).
  assert (HQ : 0 < 2 ^ (e2 - e1 - 1))
    by (apply Z.pow_pos_nonneg; lia).
  replace (e2 + bias) with ((e2 - e1 - 1) + (1 + (e1 + bias))) by lia.
  rewrite (Z.pow_add_r 2 (e2 - e1 - 1)) by (unfold bias; lia).
  rewrite (Z.pow_add_r 2 1) by (unfold bias; lia).
  rewrite Z.pow_1_r.
  set (P := 2 ^ (e1 + bias)) in *.
  set (Q := 2 ^ (e2 - e1 - 1)) in *.
  assert (Zpos m1 * P < 2 * Zpos m2 * P)
    by (apply Z.mul_lt_mono_pos_r; lia).
  assert (2 * Zpos m2 * P <= Q * (2 * Zpos m2 * P)) by nia.
  lia.
Qed.

(** The comparison of two data that are not NaN is the comparison of
    their integer images. *)
Lemma SFcompare_SF2Z x y :
  valid_binary x = true -> valid_binary y = true ->
  SFis_nan x = false -> SFis_nan y = false ->
  SFcompare x y = Some (SF2Z x ?= SF2Z y).
Proof.
  intros Vx Vy Nx Ny.
  destruct x as [sx|sx| |sx mx ex], y as [sy|sy| |sy my ey];
    try discriminate; cbn [SFcompare SF2Z valid_binary] in *.
  - reflexivity.
  - pose proof top_pos.
    destruct sy; cbn [cond_Zopp]; apply f_equal; symmetry.
    + apply Z.compare_gt_iff; lia.
    + apply Z.compare_lt_iff; lia.
  - pose proof (finite_range _ _ Vy).
    destruct sy; cbn [cond_Zopp]; apply f_equal; symmetry.
    + apply Z.compare_gt_iff; lia.
    + apply Z.compare_lt_iff; lia.
  - pose proof top_pos.
    destruct sx; cbn [cond_Zopp]; apply f_equal; symmetry.
    + apply Z.compare_lt_iff; lia.
    + apply Z.compare_gt_iff; lia.
  - pose proof top_pos.
    destruct sx, sy; cbn [cond_Zopp]; apply f_equal; symmetry.
    + apply Z.compare_eq_iff; lia.
    + apply Z.compare_lt_iff; lia.
    + apply Z.compare_gt_iff; lia.
    + apply Z.compare_eq_iff; lia.
  - pose proof (finite_range _ _ Vy).
    destruct sx; cbn [cond_Zopp]; apply f_equal; symmetry.
    + apply Z.compare_lt_iff; destruct sy; cbn [cond_Zopp]; lia.
    + apply Z.compare_gt_iff; destruct sy; cbn [cond_Zopp]; lia.
  - pose proof (finite_range _ _ Vx).
    destruct sx; cbn [cond_Zopp]; apply f_equal; symmetry.
    + apply Z.compare_lt_iff; lia.
    + apply Z.compare_gt_iff; lia.
  - pose proof (finite_range _ _ Vx).
    destruct sy; cbn [cond_Zopp]; apply f_equal; symmetry.
    + apply Z.compare_gt_iff; destruct sx; cbn [cond_Zopp]; lia.
    + apply Z.compare_lt_iff; destruct sx; cbn [cond_Zopp]; lia.
  - pose proof (finite_range _ _ Vx) as Rx.
    pose proof (finite_range _ _ Vy) as Ry.
    assert (HE : ex = ey ->
      (Zpos mx * 2 ^ (ex + bias) ?= Zpos my * 2 ^ (ey + bias))
      = (mx ?= my)%positive).
    { intros ->.
      assert (HP : 0 < 2 ^ (ey + bias)).
      { apply Z.pow_pos_nonneg; [lia|]. apply bounded_inv in Vy. unfold bias. lia. }
      destruct (Pos.compare_spec mx my) as [E|L|G].
      - subst. apply Z.compare_refl.
      - apply Z.compare_lt_iff. apply Z.mul_lt_mono_pos_r; [exact HP|lia].
      - apply Z.compare_gt_iff. apply Z.mul_lt_mono_pos_r; [exact HP|lia]. }
    apply f_equal.
    destruct sx, sy; cbn [cond_Zopp].
    + rewrite Z.compare_opp.
      rewrite (Z.compare_antisym (Zpos mx * 2 ^ (ex + bias))
                                 (Zpos my * 2 ^ (ey + bias))).
      destruct (Z.compare_spec ex ey) as [E|L|G].
      * rewrite (HE E). reflexivity.
      * rewrite (proj2 (Z.compare_lt_iff _ _)
                   (finite_exponent_order _ _ _ _ Vx Vy L)). reflexivity.
      * rewrite (proj2 (Z.compare_gt_iff _ _)
                   (finite_exponent_order _ _ _ _ Vy Vx G)). reflexivity.
    + symmetry. apply Z.compare_lt_iff. lia.
    + symmetry. apply Z.compare_gt_iff. lia.
    + destruct (Z.compare_spec ex ey) as [E|L|G].
      * rewrite (HE E). reflexivity.
      * symmetry. apply Z.compare_lt_iff.
        now apply finite_exponent_order.
      * symmetry. apply Z.compare_gt_iff.
        now apply finite_exponent_order.
Qed.

(** Rounding a non-zero integer significand never gives zero: the right
    shift keeps 53 digits. *)
Lemma shr_1_lower mrs k :
  1 <= k -> 2 ^ k <= shr_m mrs -> 2 ^ (k - 1) <= shr_m (shr_1 mrs).
Proof.
  intros Hk H.
  assert (Hp : 0 < 2 ^ (k - 1)) by (apply Z.pow_pos_nonneg; lia).
  replace k with (k - 1 + 1) in H by lia.
  rewrite pow2_double in H by lia.
  destruct mrs as [m r s]; cbn [shr_m] in H.
  destruct m as [|[p|p|]|p]; cbn [shr_1 shr_m]; lia.
Qed.

Lemma iter_shr_1_lower p : forall mrs k,
  Zpos p <= k -> 2 ^ k <= shr_m mrs ->
  2 ^ (k - Zpos p) <= shr_m (iter_pos shr_1 p mrs).
Proof.
  induction p as [p IH|p IH|]; intros mrs k Hk H; cbn [iter_pos].
  - replace (k - Zpos p~1) with (k - 1 - Zpos p - Zpos p) by lia.
    apply IH; [lia|]. apply IH; [lia|]. apply shr_1_lower; [lia|exact H].
  - replace (k - Zpos p~0) with (k - Zpos p - Zpos p) by lia.
    apply IH; [lia|]. apply IH; [lia|exact H].
  - apply shr_1_lower; [lia|exact H].
Qed.

Lemma shr_m_of_loc m l : shr_m (shr_record_of_loc m l) = m.
Proof. destruct l as [|[]]; reflexivity. Qed.

Lemma shr_fexp_pos m e l :
  -1074 <= e ->
  0 < shr_m (fst (shr_fexp prec emax (Zpos m) e l)) /\
  -1074 <= snd (shr_fexp prec emax (Zpos m) e l).
Proof.
  intros He. unfold shr_fexp, shr. cbn [Zdigits2].
  destruct (fexp prec emax (Zpos (digits2_pos m) + e) - e) as [|p|p] eqn:Hn;
    cbn [fst snd]; rewrite ?shr_m_of_loc; try lia.
  unfold fexp in Hn. change (SpecFloat.emin prec emax) with (-1074) in Hn.
  change prec with 53 in Hn.
  pose proof (digits2_pos_bounds m) as [Hm _].
  split; [|lia].
  apply Z.lt_le_trans with (2 ^ (Zpos (digits2_pos m) - 1 - Zpos p)).
  - apply Z.pow_pos_nonneg; lia.
  - apply iter_shr_1_lower; [lia|]. now rewrite shr_m_of_loc.
Qed.

Lemma round_nearest_even_pos m l : 0 < m -> 0 < round_nearest_even m l.
Proof.
  intros H. destruct l as [|[]]; cbn [round_nearest_even];
    try destruct (Z.even m); lia.
Qed.

Lemma binary_round_aux_signed s m e l :
  -1074 <= e -> SFsigned s (binary_round_aux prec emax s (Zpos m) e l).
Proof.
  intros He. unfold binary_round_aux.
  pose proof (shr_fexp_pos m e l He) as [H1 H2].
  destruct (shr_fexp prec emax (Zpos m) e l) as [mrs' e'].
  cbn [fst snd] in H1, H2.
  pose proof (round_nearest_even_pos _ (loc_of_shr_record mrs') H1) as H3.
  destruct (round_nearest_even (shr_m mrs') (loc_of_shr_record mrs'))
    as [|q|q]; try lia.
  pose proof (shr_fexp_pos q e' loc_Exact H2) as [H4 _].
  destruct (shr_fexp prec emax (Zpos q) e' loc_Exact) as [mrs'' e''].
  cbn [fst] in H4.
  destruct (shr_m mrs'') as [|r|r]; try lia.
  destruct (e'' <=? emax - prec); reflexivity.
Qed.

Lemma iter_xO_value d : forall m, Zpos (Pos.iter xO m d) = Zpos m * 2 ^ Zpos d.
Proof.
  induction d as [|d IH] using Pos.peano_ind; intros m.
  - cbn. lia.
  - rewrite Pos.iter_succ, Pos2Z.inj_succ, Z.pow_succ_r by lia.
    rewrite Pos2Z.inj_xO, IH. lia.
Qed.

Lemma shl_align_exponent m e e' :
  -1074 <= e -> -1074 <= e' -> -1074 <= snd (shl_align m e e').
Proof.
  intros. unfold shl_align. destruct (e' - e); cbn [snd]; lia.
Qed.

Lemma shl_align_value m e e' :
  e' <= e -> 0 <= e' + bias ->
  Zpos (fst (shl_align m e e')) * 2 ^ (e' + bias) = Zpos m * 2 ^ (e + bias).
Proof.
  intros Hle Hb. unfold shl_align.
  destruct (e' - e) as [|d|d] eqn:Hd; cbn [fst]; try lia.
  - replace e' with e by lia. reflexivity.
  - rewrite iter_xO_value. replace (e + bias) with (Zpos d + (e' + bias)) by lia.
    rewrite (Z.pow_add_r 2 (Zpos d) (e' + bias)) by lia. lia.
Qed.

Lemma binary_normalize_signed m e :
  -1074 <= e -> m <> 0 ->
  SFsigned (m <? 0) (binary_normalize prec emax m e false).
Proof.
  intros He Hm. unfold binary_normalize, binary_round.
  destruct m as [|m|m]; [lia| |].
  - destruct (shl_align m e _) as [mz ez] eqn:Hs.
    apply binary_round_aux_signed.
    change ez with (snd (mz, ez)). rewrite <- Hs.
    apply shl_align_exponent; [exact He|]. unfold fexp.
    change (SpecFloat.emin prec emax) with (-1074). lia.
  - destruct (shl_align m e _) as [mz ez] eqn:Hs.
    apply binary_round_aux_signed.
    change ez with (snd (mz, ez)). rewrite <- Hs.
    apply shl_align_exponent; [exact He|]. unfold fexp.
    change (SpecFloat.emin prec emax) with (-1074). lia.
Qed.

Lemma SFltb_zero_signed s r :
  SFsigned s r -> SFltb (S754_zero false) r = negb s.
Proof.
  destruct r as [| s'| |s' m e]; cbn; try contradiction; intros ->;
    destruct s; reflexivity.
Qed.

(** A difference is above zero exactly when the subtrahend is below the
    minuend; with a NaN or two equal infinities neither holds. *)
Lemma SFsub_sign x y :
  valid_binary x = true -> valid_binary y = true ->
  SFltb (S754_zero false) (SF64sub x y) = SFltb y x.
Proof.
  intros Vx Vy.
  destruct x as [sx|sx| |sx mx ex], y as [sy|sy| |sy my ey];
    try reflexivity;
    try (destruct sx, sy; reflexivity);
    try (destruct sx; reflexivity);
    try (destruct sy; reflexivity).
  unfold SF64sub, SFsub.
  cbn [valid_binary] in Vx, Vy.
  pose proof (bounded_inv _ _ Vx) as (Hex & _).
  pose proof (bounded_inv _ _ Vy) as (Hey & _).
  set (ez := Z.min ex ey).
  set (D := cond_Zopp sx (Zpos (fst (shl_align mx ex ez)))
            - cond_Zopp sy (Zpos (fst (shl_align my ey ez)))).
  assert (HP : 0 < 2 ^ (ez + bias))
    by (apply Z.pow_pos_nonneg; unfold bias, ez; lia).
  assert (HD : D * 2 ^ (ez + bias)
               = SF2Z (S754_finite sx mx ex) - SF2Z (S754_finite sy my ey)).
  { unfold D. cbn [SF2Z].
    rewrite <- (shl_align_value mx ex ez) by (unfold bias, ez; lia).
    rewrite <- (shl_align_value my ey ez) by (unfold bias, ez; lia).
    destruct sx, sy; cbn [cond_Zopp]; lia. }
  unfold SFltb at 2.
  rewrite (SFcompare_SF2Z (S754_finite sy my ey) (S754_finite sx mx ex))
    by (reflexivity || assumption).
  destruct (Z.eq_dec D 0) as [E|NE].
  - rewrite E in *. cbn [binary_normalize]. 
    replace (SF2Z (S754_finite sy my ey)) with (SF2Z (S754_finite sx mx ex)) by lia.
    rewrite Z.compare_refl. reflexivity.
  - rewrite (SFltb_zero_signed (D <? 0));
      [|apply binary_normalize_signed; [unfold ez; lia|exact NE]].
    destruct (Z.ltb_spec D 0) as [L|G]; cbn [negb].
    + assert (SF2Z (S754_finite sx mx ex) < SF2Z (S754_finite sy my ey)) by nia.
      rewrite (proj2 (Z.compare_gt_iff _ _)); [reflexivity|assumption].
    + assert (SF2Z (S754_finite sy my ey) < SF2Z (S754_finite sx mx ex)) by nia.
      rewrite (proj2 (Z.compare_lt_iff _ _)); [reflexivity|assumption].
Qed.

End Binary64Order.

(** ** Facts about numbers *)

Lemma Prim2SF_zero : Prim2SF 0 = S754_zero false.
Proof. reflexivity. Qed.

Lemma is_nan_spec (x : float) : PrimFloat.is_nan x = SFis_nan (Prim2SF x).
Proof.
  unfold PrimFloat.is_nan. rewrite FloatAxioms.eqb_spec. unfold SFeqb.
  destruct (Prim2SF x) as [s|s| |s m e]; cbn; try reflexivity.
  - destruct s; reflexivity.
  - rewrite Z.compare_refl.
    change (Pos.compare_cont Eq m m) with (m ?= m)%positive.
    rewrite Pos.compare_refl. destruct s; reflexivity.
Qed.

Lemma SFcompare_rank (x y : float) :
  PrimFloat.is_nan x = false -> PrimFloat.is_nan y = false ->
  SFcompare (Prim2SF x) (Prim2SF y) = Some (rank x ?= rank y)%Z.
Proof.
  rewrite !is_nan_spec. intros Hx Hy.
  apply SFcompare_SF2Z; auto using Prim2SF_valid.
Qed.

Lemma ltb_rank (x y : float) :
  PrimFloat.is_nan x = false -> PrimFloat.is_nan y = false ->
  PrimFloat.ltb x y = (rank x <? rank y)%Z.
Proof.
  intros Hx Hy. rewrite FloatAxioms.ltb_spec. unfold SFltb, Z.ltb.
  rewrite (SFcompare_rank x y Hx Hy). reflexivity.
Qed.

Lemma leb_rank (x y : float) :
  PrimFloat.is_nan x = false -> PrimFloat.is_nan y = false ->
  PrimFloat.leb x y = (rank x <=? rank y)%Z.
Proof.
  intros Hx Hy. rewrite FloatAxioms.leb_spec. unfold SFleb, Z.leb.
  rewrite (SFcompare_rank x y Hx Hy).
  destruct (rank x ?= rank y)%Z; reflexivity.
Qed.

Lemma eqb_rank (x y : float) :
  PrimFloat.is_nan x = false -> PrimFloat.is_nan y = false ->
  PrimFloat.eqb x y = (rank x =? rank y)%Z.
Proof.
  intros Hx Hy. rewrite FloatAxioms.eqb_spec. unfold SFeqb.
  rewrite (SFcompare_rank x y Hx Hy).
  destruct (Z.compare_spec (rank x) (rank y)) as [E|L|G].
  - symmetry. now apply Z.eqb_eq.
  - symmetry. apply Z.eqb_neq. lia.
  - symmetry. apply Z.eqb_neq. lia.
Qed.

Lemma leb_not_nan (x y : float) :
  PrimFloat.leb x y = true ->
  PrimFloat.is_nan x = false /\ PrimFloat.is_nan y = false.
Proof.
  rewrite FloatAxioms.leb_spec, !is_nan_spec. unfold SFleb.
  destruct (Prim2SF x), (Prim2SF y); cbn; intros H; try discriminate; auto.
Qed.

Lemma eqb_not_nan (x y : float) :
  PrimFloat.eqb x y = true ->
  PrimFloat.is_nan x = false /\ PrimFloat.is_nan y = false.
Proof.
  rewrite FloatAxioms.eqb_spec, !is_nan_spec. unfold SFeqb.
  destruct (Prim2SF x), (Prim2SF y); cbn; intros H; try discriminate; auto.
Qed.

(** The sign of a difference is the order of its operands: the comparators
    [b.score - a.score] and [a.distance - b.distance] are consistent. *)
Lemma ltb_zero_sub (a b : float) :
  PrimFloat.ltb 0 (a - b) = PrimFloat.ltb b a.
Proof.
  rewrite !FloatAxioms.ltb_spec, FloatAxioms.sub_spec, Prim2SF_zero.
  apply SFsub_sign; apply Prim2SF_valid.
Qed.

Lemma ltb_zero_SortCompare (v : float) :
  PrimFloat.ltb 0 (SortCompare v) = PrimFloat.ltb 0 v.
Proof.
  unfold SortCompare. destruct (PrimFloat.is_nan v) eqn:Hv; [|reflexivity].
  rewrite is_nan_spec in Hv. rewrite !FloatAxioms.ltb_spec, Prim2SF_zero.
  destruct (Prim2SF v); try discriminate. reflexivity.
Qed.

Lemma rank_zero : rank 0 = 0%Z.
Proof. reflexivity. Qed.

Lemma rank_infinity : rank PrimFloat.infinity = top.
Proof. reflexivity. Qed.

Lemma rank_le_top (x : float) : (rank x <= top)%Z.
Proof.
  unfold rank. pose proof (Prim2SF_valid x) as V. pose proof top_pos.
  destruct (Prim2SF x) as [s|s| |s m e]; cbn [SF2Z]; try lia.
  - destruct s; cbn [cond_Zopp]; lia.
  - cbn [valid_binary] in V. pose proof (finite_range _ _ V).
    destruct s; cbn [cond_Zopp]; lia.
Qed.

(** With no [maxDistance] the bound is [Infinity]: every distance that is
    a number passes. *)
Lemma leb_infinity (x : float) :
  PrimFloat.is_nan x = false -> PrimFloat.leb x PrimFloat.infinity = true.
Proof.
  intros Hx. rewrite leb_rank by (exact Hx || reflexivity).
  rewrite rank_infinity. apply Z.leb_le, rank_le_top.
Qed.

Lemma eqb_zero_cases (x : float) :
  PrimFloat.eqb x 0 = true -> x = 0%float \/ x = (-0)%float.
Proof.
  rewrite FloatAxioms.eqb_spec, Prim2SF_zero. intros H.
  rewrite <- (SF2Prim_Prim2SF x).
  destruct (Prim2SF x) as [s|s| |s m e]; try discriminate.
  - destruct s; [right|left]; reflexivity.
  - destruct s; discriminate.
  - destruct s; discriminate.
Qed.

Lemma sub_diag_finite (x : float) :
  Number_isFinite x = true -> (x - x)%float = 0%float.
Proof.
  unfold Number_isFinite. intros H. apply Prim2SF_inj.
  rewrite FloatAxioms.sub_spec, Prim2SF_zero.
  destruct (Prim2SF x) as [s|s| |s m e]; try discriminate.
  - destruct s; reflexivity.
  - unfold SF64sub, SFsub. rewrite Z.sub_diag. reflexivity.
Qed.

(** A square root is never below zero. *)
Lemma sqrt_not_negative (x : float) : PrimFloat.ltb (Math_sqrt x) 0 = false.
Proof.
  unfold Math_sqrt. rewrite FloatAxioms.ltb_spec, FloatAxioms.sqrt_spec, Prim2SF_zero.
  unfold SF64sqrt, SFsqrt.
  destruct (Prim2SF x) as [s|s| |s m e]; try reflexivity.
  - destruct s; reflexivity.
  - destruct s; [reflexivity|].
    destruct (SFsqrt_core_binary prec emax (Zpos m) e) as [[mz ez] lz].
    unfold binary_round_aux.
    destruct (shr_fexp prec emax mz ez lz) as [mrs' e'].
    destruct (shr_fexp prec emax _ e' loc_Exact) as [mrs'' e''].
    destruct (shr_m mrs''); try reflexivity.
    destruct (e'' <=? emax - prec)%Z; reflexivity.
Qed.

(** [0 / x] is [+0], [-0] or NaN, so [0 / x || 0] is [0]. *)
Lemma zero_ratio_or_zero (x : float) : JS_or (0 / x)%float 0%float = 0%float.
Proof.
  unfold JS_or, truthy. rewrite is_nan_spec, FloatAxioms.eqb_spec, FloatAxioms.div_spec, Prim2SF_zero.
  destruct (Prim2SF x) as [s|s| |s m e]; try reflexivity;
    destruct s; reflexivity.
Qed.

(** ** Stable sorting *)

Section SortByKey.

Context {A : Type} (key : A -> Z).

Lemma insert_by_key_perm (x : A) (l : list A) :
  Permutation (insert_by_key key x l) (x :: l).
Proof.
  induction l as [|y l IH]; cbn [insert_by_key].
  - reflexivity.
  - destruct (key y <? key x)%Z.
    + rewrite IH. apply perm_swap.
    + reflexivity.
Qed.

Lemma sort_by_key_perm (l : list A) : Permutation (sort_by_key key l) l.
Proof.
  induction l as [|x l IH]; cbn [sort_by_key fold_right].
  - reflexivity.
  - fold (sort_by_key key l). rewrite insert_by_key_perm. now constructor.
Qed.

Lemma insert_by_key_sorted (x : A) (l : list A) :
  StronglySorted (key_le key) l -> StronglySorted (key_le key) (insert_by_key key x l).
Proof.
  induction 1 as [|y l Hs IH Hy]; cbn [insert_by_key].
  - repeat constructor.
  - destruct (Z.ltb_spec (key y) (key x)) as [L|G].
    + constructor; [exact IH|].
      eapply Permutation_Forall; [symmetry; apply insert_by_key_perm|].
      constructor; [unfold key_le; lia|exact Hy].
    + constructor; [now constructor|].
      constructor; [exact G|].
      eapply Forall_impl; [|exact Hy]. unfold key_le. intros; lia.
Qed.

Lemma sort_by_key_sorted (l : list A) : StronglySorted (key_le key) (sort_by_key key l).
Proof.
  induction l as [|x l IH]; cbn [sort_by_key fold_right].
  - constructor.
  - apply insert_by_key_sorted, IH.
Qed.

(** Records that share a key keep their order: a filter that selects one
    key class commutes with the sort. *)
Lemma insert_by_key_filter (p : A -> bool) (x : A) (l : list A) :
  (forall y, p x = true -> p y = true -> key y = key x) ->
  filter p (insert_by_key key x l) = filter p (x :: l).
Proof.
  intros Hp. induction l as [|y l IH]; cbn [insert_by_key]; [reflexivity|].
  destruct (Z.ltb_spec (key y) (key x)) as [L|G]; [|reflexivity].
  cbn [filter] in *. rewrite IH.
  destruct (p x) eqn:Px, (p y) eqn:Py; try reflexivity.
  specialize (Hp y eq_refl Py). lia.
Qed.

Lemma sort_by_key_filter (p : A -> bool) (l : list A) :
  (forall x y, p x = true -> p y = true -> key y = key x) ->
  filter p (sort_by_key key l) = filter p l.
Proof.
  intros Hp. induction l as [|x l IH]; cbn [sort_by_key fold_right];
    [reflexivity|].
  fold (sort_by_key key l). rewrite insert_by_key_filter by (apply Hp).
  cbn [filter]. now rewrite IH.
Qed.

(** A record of least key that is the first of its key class comes
    first. *)
Lemma sort_by_key_head (l before after : list A) (x : A) :
  l = before ++ x :: after ->
  Forall (key_le key x) l ->
  exists h rest,
    sort_by_key key l = h :: rest /\ key h = key x /\
    (Forall (fun y => key y <> key x) before -> h = x).
Proof.
  intros Hl Hmin.
  pose proof (sort_by_key_perm l) as Hperm.
  pose proof (sort_by_key_sorted l) as Hsorted.
  destruct (sort_by_key key l) as [|h rest] eqn:Hs.
  - apply Permutation_nil in Hperm. subst l. now destruct before.
  - exists h, rest. split; [reflexivity|].
    assert (Hh : In h l) by (eapply Permutation_in; [exact Hperm|now left]).
    assert (Hx : In x (h :: rest)).
    { eapply Permutation_in; [symmetry; exact Hperm|].
      subst l. apply in_or_app. right. now left. }
    assert (Hk : key h = key x).
    { rewrite Forall_forall in Hmin. specialize (Hmin h Hh). unfold key_le in Hmin.
      apply StronglySorted_inv in Hsorted. destruct Hsorted as [_ Hrest].
      destruct Hx as [->|Hx]; [reflexivity|].
      rewrite Forall_forall in Hrest. specialize (Hrest x Hx).
      unfold key_le in Hrest. lia. }
    split; [exact Hk|]. intros Hfirst.
    pose proof (sort_by_key_filter (fun y => (key y =? key x)%Z) l) as Hf.
    rewrite Hs in Hf. cbn [filter] in Hf.
    rewrite (proj2 (Z.eqb_eq _ _) Hk) in Hf.
    rewrite Hl, filter_app in Hf. cbn [filter] in Hf.
    rewrite Z.eqb_refl in Hf.
    assert (Hb : filter (fun y => (key y =? key x)%Z) before = []).
    { clear -Hfirst. induction Hfirst as [|y l Hy _ IH]; cbn [filter];
        [reflexivity|].
      rewrite (proj2 (Z.eqb_neq _ _) Hy). exact IH. }
    rewrite Hb in Hf. cbn [app] in Hf.
    assert (Hf' : h :: filter (fun y => (key y =? key x)%Z) rest
                  = x :: filter (fun y => (key y =? key x)%Z) after).
    { apply Hf. intros a b Ha Hb'. apply Z.eqb_eq in Ha, Hb'. lia. }
    now injection Hf'.
Qed.

(** [sort] with a comparator that agrees with the key is the sort by the
    key. *)
Lemma sort_insert_by_key (comparefn : A -> A -> float) (x : A) (l : list A) :
  (forall y, In y l ->
     PrimFloat.ltb 0 (SortCompare (comparefn x y)) = (key y <? key x)%Z) ->
  sort_insert comparefn x l = insert_by_key key x l.
Proof.
  induction l as [|y l IH]; intros H; cbn [sort_insert insert_by_key];
    [reflexivity|].
  rewrite (H y) by now left.
  rewrite IH by (intros z Hz; apply H; now right). reflexivity.
Qed.

Lemma Array_sort_by_key (comparefn : A -> A -> float) (l : list A) :
  (forall x y, In x l -> In y l ->
     PrimFloat.ltb 0 (SortCompare (comparefn x y)) = (key y <? key x)%Z) ->
  Array_sort comparefn l = sort_by_key key l.
Proof.
  induction l as [|x l IH]; intros H; cbn [Array_sort sort_by_key fold_right];
    [reflexivity|].
  fold (Array_sort comparefn l). fold (sort_by_key key l).
  rewrite IH by (intros a b Ha Hb; apply H; now right).
  apply sort_insert_by_key. intros y Hy. apply H; [now left|].
  right. eapply Permutation_in; [apply sort_by_key_perm|exact Hy].
Qed.

End SortByKey.

Lemma StronglySorted_on {A : Type} (P : A -> Prop) (R R' : A -> A -> Prop)
  (l : list A) :
  (forall a b, P a -> P b -> R a b -> R' a b) ->
  Forall P l -> StronglySorted R l -> StronglySorted R' l.
Proof.
  intros HR HP Hs. induction Hs as [|x l Hs IH Hx]; [constructor|].
  apply Forall_cons_iff in HP. destruct HP as [Px Pl].
  constructor; [now apply IH|].
  rewrite Forall_forall in *. intros y Hy. apply HR; auto.
Qed.

(** ** Slices *)

Lemma Array_slice0_count {A : Type} (l : list A) (k : Z) :
  (0 <= k)%Z ->
  Array_slice0 l k = firstn (Z.to_nat k) l /\
  (Z.of_nat (length (Array_slice0 l k)) <= k)%Z.
Proof.
  intros Hk. unfold Array_slice0.
  destruct (Z.ltb_spec k 0) as [L|G]; [lia|].
  assert (E : firstn (Z.to_nat (Z.min k (Z.of_nat (length l)))) l
              = firstn (Z.to_nat k) l).
  { destruct (Z.le_ge_cases k (Z.of_nat (length l))) as [H|H].
    - now rewrite Z.min_l.
    - rewrite Z.min_r by exact H. rewrite Nat2Z.id.
      rewrite firstn_all. symmetry. apply firstn_all2. lia. }
  rewrite E. split; [reflexivity|].
  rewrite length_firstn. lia.
Qed.

(** ** Callbacks that can throw *)

Lemma Array_map_returns {A B : Type} (f : A -> outcome B) (l : list A) :
  Forall (fun x => exists y, f x = Return y) l ->
  exists ys, Array_map f l = Return ys /\
             Forall2 (fun x y => f x = Return y) l ys.
Proof.
  induction 1 as [|x l [y Hy] _ [ys [Hys HF]]]; cbn [Array_map].
  - exists []. split; [reflexivity|constructor].
  - exists (y :: ys). rewrite Hy, Hys. cbn [obind].
    split; [reflexivity|now constructor].
Qed.

Lemma Array_map_throws {A B : Type} (f : A -> outcome B)
  (before after : list A) (x : A) (e : error) :
  Forall (fun x => exists y, f x = Return y) before ->
  f x = Throw e ->
  Array_map f (before ++ x :: after) = Throw e.
Proof.
  induction 1 as [|b before [y Hy] _ IH]; intros Hx; cbn [Array_map app].
  - now rewrite Hx.
  - rewrite Hy. cbn [obind]. now rewrite IH.
Qed.

(** ** Sorting by a number *)

Section SortByNumber.

Context {A : Type} (value : A -> float).

Lemma same_number_same_rank (v : float) (x y : A) :
  PrimFloat.eqb (value x) v = true -> PrimFloat.eqb (value y) v = true ->
  rank (value y) = rank (value x).
Proof.
  intros Hx Hy.
  destruct (eqb_not_nan _ _ Hx) as [Nx Nv].
  destruct (eqb_not_nan _ _ Hy) as [Ny _].
  rewrite eqb_rank in Hx, Hy by assumption.
  apply Z.eqb_eq in Hx, Hy. lia.
Qed.

(** [sort((a, b) => a.value - b.value)] *)
Lemma Array_sort_ascending (l : list A) :
  Forall (is_number value) l ->
  Array_sort (fun a b => (value a - value b)%float) l
  = sort_by_key (fun a => rank (value a)) l.
Proof.
  intros Hl. apply Array_sort_by_key. intros x y Hx Hy.
  rewrite Forall_forall in Hl.
  rewrite ltb_zero_SortCompare, ltb_zero_sub.
  apply ltb_rank; apply Hl; assumption.
Qed.

(** [sort((a, b) => b.value - a.value)] *)
Lemma Array_sort_descending (l : list A) :
  Forall (is_number value) l ->
  Array_sort (fun a b => (value b - value a)%float) l
  = sort_by_key (fun a => (- rank (value a))%Z) l.
Proof.
  intros Hl. apply Array_sort_by_key. intros x y Hx Hy.
  rewrite Forall_forall in Hl.
  rewrite ltb_zero_SortCompare, ltb_zero_sub.
  rewrite ltb_rank by (apply Hl; assumption).
  destruct (Z.ltb_spec (rank (value x)) (rank (value y)));
    destruct (Z.ltb_spec (- rank (value y)) (- rank (value x))); lia || reflexivity.
Qed.

Lemma ascending_ranked (l : list A) :
  Forall (is_number value) l ->
  let ranked := Array_sort (fun a b => (value a - value b)%float) l in
  Permutation ranked l /\
  StronglySorted (fun a b => PrimFloat.leb (value a) (value b) = true) ranked /\
  (forall v, filter (fun r => PrimFloat.eqb (value r) v) ranked
             = filter (fun r => PrimFloat.eqb (value r) v) l).
Proof.
  intros Hl ranked. subst ranked. rewrite (Array_sort_ascending l Hl).
  split; [apply sort_by_key_perm|]. split.
  - apply (StronglySorted_on (is_number value) (key_le (fun a => rank (value a)))).
    + intros a b Ha Hb Hab. rewrite leb_rank by assumption.
      apply Z.leb_le. exact Hab.
    + eapply Permutation_Forall; [symmetry; apply sort_by_key_perm|exact Hl].
    + apply sort_by_key_sorted.
  - intros v. apply sort_by_key_filter. intros x y.
    apply same_number_same_rank.
Qed.

Lemma descending_ranked (l : list A) :
  Forall (is_number value) l ->
  let ranked := Array_sort (fun a b => (value b - value a)%float) l in
  Permutation ranked l /\
  StronglySorted (fun a b => PrimFloat.leb (value b) (value a) = true) ranked /\
  (forall v, filter (fun r => PrimFloat.eqb (value r) v) ranked
             = filter (fun r => PrimFloat.eqb (value r) v) l).
Proof.
  intros Hl ranked. subst ranked. rewrite (Array_sort_descending l Hl).
  split; [apply sort_by_key_perm|]. split.
  - apply (StronglySorted_on (is_number value)
             (key_le (fun a => (- rank (value a))%Z))).
    + intros a b Ha Hb Hab. rewrite leb_rank by assumption.
      apply Z.leb_le. unfold key_le in Hab. lia.
    + eapply Permutation_Forall; [symmetry; apply sort_by_key_perm|exact Hl].
    + apply sort_by_key_sorted.
  - intros v. apply sort_by_key_filter. intros x y Hx Hy.
    f_equal. now apply (same_number_same_rank v).
Qed.

(** What passes [value >= bound] or [value <= bound] is a number. *)
Lemma filter_at_least_numbers (bound : float) (l : list A) :
  Forall (is_number value) (filter (fun r => PrimFloat.leb bound (value r)) l).
Proof.
  apply Forall_forall. intros r Hr. apply filter_In in Hr.
  destruct Hr as [_ Hr]. now apply leb_not_nan in Hr.
Qed.

Lemma filter_at_most_numbers (bound : float) (l : list A) :
  Forall (is_number value) (filter (fun r => PrimFloat.leb (value r) bound) l).
Proof.
  apply Forall_forall. intros r Hr. apply filter_In in Hr.
  destruct Hr as [_ Hr]. now apply leb_not_nan in Hr.
Qed.

End SortByNumber.

(** ** The metrics *)

Lemma fold_left_map_index {B C D : Type} (f : B -> D -> B) (g : C -> D)
  (l : list C) : forall acc,
  fold_left f (map g l) acc = fold_left (fun a x => f a (g x)) l acc.
Proof. induction l as [|x l IH]; intros acc; cbn; [reflexivity|apply IH]. Qed.

Lemma cosine_loop_magnitudes (a : vector) : forall (b : vector) d ma mb,
  length a = length b ->
  exists d',
    fold_left (cosine_step a b) (seq 0 (length a)) (d, ma, mb)
    = (d', fold_left (fun acc x => (acc + x * x)%float) a ma,
           fold_left (fun acc x => (acc + x * x)%float) b mb).
Proof.
  induction a as [|x a IH]; intros [|y b] d ma mb Hlen; try discriminate.
  - exists d. reflexivity.
  - cbn [length seq fold_left].
    rewrite <- seq_shift, fold_left_map_index.
    change (fun acc i => cosine_step (x :: a) (y :: b) acc (S i))
      with (cosine_step a b).
    apply IH. now injection Hlen.
Qed.

Lemma cosineSimilarity_mismatch (a b : vector) :
  length a <> length b -> cosineSimilarity a b = Throw DimensionMismatch.
Proof.
  intros H. unfold cosineSimilarity.
  now rewrite (proj2 (Nat.eqb_neq _ _) H).
Qed.

Lemma euclideanDistance_mismatch (a b : vector) :
  length a <> length b -> euclideanDistance a b = Throw DimensionMismatch.
Proof.
  intros H. unfold euclideanDistance.
  now rewrite (proj2 (Nat.eqb_neq _ _) H).
Qed.

(** On vectors of one length [cosineSimilarity] returns: [0] when a
    magnitude is zero, else the quotient. *)
Lemma cosineSimilarity_value (a b : vector) :
  length a = length b ->
  exists dotProduct,
    cosineSimilarity a b =
    Return (if PrimFloat.eqb (magnitude a) 0 || PrimFloat.eqb (magnitude b) 0
            then 0%float
            else (dotProduct / (magnitude a * magnitude b))%float).
Proof.
  intros H. unfold cosineSimilarity, cosine_loop.
  rewrite (proj2 (Nat.eqb_eq _ _) H). cbn [negb].
  destruct (cosine_loop_magnitudes a b 0%float 0%float 0%float H) as [d Hd].
  rewrite Hd. exists d. fold (sum_of_squares a). fold (sum_of_squares b).
  fold (magnitude a). fold (magnitude b).
  destruct (PrimFloat.eqb (magnitude a) 0 || PrimFloat.eqb (magnitude b) 0);
    reflexivity.
Qed.

Lemma euclideanDistance_value (a b : vector) :
  length a = length b ->
  euclideanDistance a b =
  Return (Math_sqrt (fold_left (euclidean_step a b) (seq 0 (length a)) 0%float)).
Proof.
  intros H. unfold euclideanDistance.
  now rewrite (proj2 (Nat.eqb_eq _ _) H).
Qed.

Lemma euclideanDistance_not_negative (a b : vector) (d : float) :
  euclideanDistance a b = Return d -> PrimFloat.ltb d 0 = false.
Proof.
  unfold euclideanDistance. destruct (negb (length a =? length b)); [discriminate|].
  intros H. injection H as <-. apply sqrt_not_negative.
Qed.

Lemma euclidean_loop_self (q : vector) :
  Forall (fun x => Number_isFinite x = true) q ->
  fold_left (euclidean_step q q) (seq 0 (length q)) 0%float = 0%float.
Proof.
  induction 1 as [|x q Hx _ IH]; [reflexivity|].
  cbn [length seq fold_left].
  replace (euclidean_step (x :: q) (x :: q) 0%float 0) with 0%float.
  - rewrite <- seq_shift, fold_left_map_index.
    change (fun acc i => euclidean_step (x :: q) (x :: q) acc (S i))
      with (euclidean_step q q).
    exact IH.
  - unfold euclidean_step, at_index. cbn [nth].
    rewrite (sub_diag_finite x Hx). reflexivity.
Qed.

Lemma euclideanDistance_self (q : vector) :
  Forall (fun x => Number_isFinite x = true) q ->
  euclideanDistance q q = Return 0%float.
Proof.
  intros H. rewrite euclideanDistance_value by reflexivity.
  rewrite (euclidean_loop_self q H). reflexivity.
Qed.

Lemma sum_of_squares_zeros (a : vector) :
  Forall (fun x => PrimFloat.eqb x 0 = true) a -> sum_of_squares a = 0%float.
Proof.
  unfold sum_of_squares. induction 1 as [|x a Hx _ IH]; [reflexivity|].
  cbn [fold_left].
  replace (0 + x * x)%float with 0%float; [exact IH|].
  destruct (eqb_zero_cases x Hx) as [-> | ->]; reflexivity.
Qed.

(** ** The searches, unfolded *)

Lemma search_unfold (q : vector) (topK : option Z) (threshold : option float)
  (this : VectorStore) :
  search q topK threshold this =
  match Array_map (score_document q) (documents this) with
  | Return results =>
      (Return (Array_slice0
                 (Array_sort (fun a b => (score b - score a)%float)
                    (filter (fun r => PrimFloat.leb (default 0%float threshold)
                                                    (score r)) results))
                 (default 5%Z topK)), this)
  | Throw e => (Throw e, this)
  end.
Proof.
  unfold search, bind, this_documents, call, ret.
  destruct (Array_map (score_document q) (documents this)); reflexivity.
Qed.

Lemma searchByDistance_unfold (q : vector) (topK : option Z)
  (maxDistance : option float) (this : VectorStore) :
  searchByDistance q topK maxDistance this =
  match Array_map (measure_document q) (documents this) with
  | Return results =>
      (Return (Array_slice0
                 (Array_sort (fun a b => (distance a - distance b)%float)
                    (filter (fun r => PrimFloat.leb (distance r)
                               (default PrimFloat.infinity maxDistance)) results))
                 (default 5%Z topK)), this)
  | Throw e => (Throw e, this)
  end.
Proof.
  unfold searchByDistance, bind, this_documents, call, ret.
  destruct (Array_map (measure_document q) (documents this)); reflexivity.
Qed.

Lemma score_document_returns (q : vector) (d : document) :
  same_dimension q d -> exists r, score_document q d = Return r.
Proof.
  unfold same_dimension, score_document. intros H.
  destruct (cosineSimilarity_value q (doc_embedding d) (eq_sym H)) as [dot ->].
  eexists. reflexivity.
Qed.

Lemma measure_document_returns (q : vector) (d : document) :
  same_dimension q d -> exists r, measure_document q d = Return r.
Proof.
  unfold same_dimension, measure_document. intros H.
  rewrite (euclideanDistance_value q (doc_embedding d) (eq_sym H)).
  eexists. reflexivity.
Qed.

Lemma score_document_scored_by (q : vector) (d : document) (r : scored) :
  score_document q d = Return r -> scored_by q d r.
Proof.
  unfold score_document, scored_by.
  destruct (cosineSimilarity q (doc_embedding d)) as [s|e]; cbn [obind];
    [|discriminate].
  intros H. injection H as <-. cbn. auto.
Qed.

Lemma measure_document_distanced_by (q : vector) (d : document) (r : distanced) :
  measure_document q d = Return r -> distanced_by q d r.
Proof.
  unfold measure_document, distanced_by.
  destruct (euclideanDistance q (doc_embedding d)) as [s|e]; cbn [obind];
    [|discriminate].
  intros H. injection H as <-. cbn. auto.
Qed.

(** * The specification, property by property *)

(** ** The embedder *)

Lemma toLowerCase_char_not_uppercase (c : ascii) :
  is_uppercase (toLowerCase_char c) = false.
Proof.
  destruct c as [b0 b1 b2 b3 b4 b5 b6 b7].
  destruct b0, b1, b2, b3, b4, b5, b6, b7; reflexivity.
Qed.

Lemma toLowerCase_no_uppercase (text : jsstring) :
  match_count is_uppercase (toLowerCase text) = 0.
Proof.
  unfold match_count, toLowerCase.
  induction text as [|c text IH]; cbn [map filter]; [reflexivity|].
  now rewrite toLowerCase_char_not_uppercase.
Qed.

(** Component 8 is computed on the lowercased text, so it is 0 for every
    input. *)
Lemma uppercase_component_always_zero (text : jsstring) :
  nth 7 (generateEmbedding text) PrimFloat.nan = 0%float.
Proof.
  unfold generateEmbedding. cbn [nth].
  rewrite toLowerCase_no_uppercase.
  change (Number_of_nat 0) with 0%float.
  apply zero_ratio_or_zero.
Qed.

(** C1: component 8 should be the uppercase letters of the original text
    over its length.  On ["Hello"] that is 1/5, but [generateEmbedding]
    counts on the lowercased text and returns 0. *)
Theorem uppercase_ratio_Hello :
  nth 7 (generateEmbedding (str "Hello")) PrimFloat.nan = 0%float /\
  uppercase_ratio_of_original (str "Hello")
  = (Number_of_nat 1 / Number_of_nat 5)%float /\
  PrimFloat.eqb (uppercase_ratio_of_original (str "Hello"))
                (nth 7 (generateEmbedding (str "Hello")) PrimFloat.nan) = false.
Proof. repeat split; reflexivity. Qed.

Lemma whitespace_lowercase (c : ascii) :
  is_whitespace c = true -> toLowerCase_char c = c.
Proof.
  destruct c as [b0 b1 b2 b3 b4 b5 b6 b7].
  destruct b0, b1, b2, b3, b4, b5, b6, b7; intros H; try reflexivity;
    vm_compute in H; discriminate H.
Qed.

Lemma toLowerCase_blank (text : jsstring) :
  forallb is_whitespace text = true -> toLowerCase text = text.
Proof.
  unfold toLowerCase. induction text as [|c text IH]; cbn [forallb map];
    [reflexivity|].
  intros H. apply andb_true_iff in H. destruct H as [Hc Ht].
  now rewrite (whitespace_lowercase c Hc), IH.
Qed.

Lemma split_run_blank (rest : jsstring) :
  forallb is_whitespace rest = true -> split_run true [] rest = [[]].
Proof.
  induction rest as [|c rest IH]; cbn [forallb split_run]; [reflexivity|].
  intros H. apply andb_true_iff in H. destruct H as [Hc Ht].
  rewrite Hc. now apply IH.
Qed.

(** A text of whitespace only splits into two empty pieces, however long
    it is. *)
Lemma split_whitespace_blank (text : jsstring) :
  text <> [] -> forallb is_whitespace text = true ->
  split_whitespace text = [[]; []].
Proof.
  destruct text as [|c rest]; [congruence|]. intros _ H.
  cbn [forallb] in H. apply andb_true_iff in H. destruct H as [Hc Ht].
  unfold split_whitespace. cbn [split_run]. rewrite Hc.
  now rewrite split_run_blank.
Qed.

(** Component 1 of every non-empty text of whitespace is 2/10. *)
Lemma blank_text_word_count (text : jsstring) :
  text <> [] -> forallb is_whitespace text = true ->
  nth 0 (generateEmbedding text) PrimFloat.nan = (Number_of_nat 2 / 10)%float.
Proof.
  intros Hne Hws. unfold generateEmbedding. cbn [nth].
  rewrite (toLowerCase_blank text Hws).
  now rewrite (split_whitespace_blank text Hne Hws).
Qed.

(** C2: the empty text and the all-whitespace text should have no words
    and a zero component 1.  [split] gives them one and two empty pieces,
    so component 1 is 1/10 and 2/10; every component is finite. *)
Theorem word_count_of_blank_text :
  split_whitespace (toLowerCase (str "")) = [[]] /\
  nth 0 (generateEmbedding (str "")) PrimFloat.nan
  = (Number_of_nat 1 / 10)%float /\
  split_whitespace (toLowerCase (str "   ")) = [[]; []] /\
  nth 0 (generateEmbedding (str "   ")) PrimFloat.nan
  = (Number_of_nat 2 / 10)%float /\
  PrimFloat.eqb (nth 0 (generateEmbedding (str "")) PrimFloat.nan) 0 = false /\
  PrimFloat.eqb (nth 0 (generateEmbedding (str "   ")) PrimFloat.nan) 0 = false /\
  forallb Number_isFinite (generateEmbedding (str "")) = true /\
  forallb Number_isFinite (generateEmbedding (str "   ")) = true.
Proof. repeat split; reflexivity. Qed.

(** C9: for every input string the embedding has exactly 10
    components. *)
Theorem generateEmbedding_dimension (s : jsstring) :
  length (generateEmbedding s) = 10.
Proof. reflexivity. Qed.

(** ** The metrics *)

(** C3: on vectors of unequal length both metrics throw the
    dimension-mismatch error, and on vectors of equal length they return;
    a search over a store whose first record of another dimension is [d]
    scores the records before [d], throws that error at [d], and the
    error is the outcome of the whole call, for both searches. *)
Theorem dimension_mismatch_fault :
  (forall a b : vector, length a <> length b ->
     cosineSimilarity a b = Throw DimensionMismatch /\
     euclideanDistance a b = Throw DimensionMismatch) /\
  (forall a b : vector, length a = length b ->
     (exists s, cosineSimilarity a b = Return s) /\
     (exists d, euclideanDistance a b = Return d)) /\
  (forall (this : VectorStore) (q : vector) (topK : option Z)
          (threshold maxDistance : option float)
          (before after : list document) (d : document),
     documents this = before ++ d :: after ->
     Forall (same_dimension q) before ->
     ~ same_dimension q d ->
     Forall (fun p => exists r, score_document q p = Return r) before /\
     score_document q d = Throw DimensionMismatch /\
     search q topK threshold this = (Throw DimensionMismatch, this) /\
     searchByDistance q topK maxDistance this
     = (Throw DimensionMismatch, this)).
Proof.
  split; [|split].
  - intros a b H. split.
    + now apply cosineSimilarity_mismatch.
    + now apply euclideanDistance_mismatch.
  - intros a b H. split.
    + destruct (cosineSimilarity_value a b H) as [dot ->]. eexists. reflexivity.
    + rewrite (euclideanDistance_value a b H). eexists. reflexivity.
  - intros this q topK threshold maxDistance before after d Hdocs Hb Hd.
    assert (Hbefore : Forall (fun p => exists r, score_document q p = Return r)
                             before).
    { eapply Forall_impl; [|exact Hb]. apply score_document_returns. }
    assert (Hthrow : score_document q d = Throw DimensionMismatch).
    { unfold score_document. rewrite cosineSimilarity_mismatch; [reflexivity|].
      unfold same_dimension in Hd. congruence. }
    repeat split; try assumption.
    + rewrite search_unfold, Hdocs.
      now rewrite (Array_map_throws _ before after d DimensionMismatch
                     Hbefore Hthrow).
    + rewrite searchByDistance_unfold, Hdocs.
      rewrite (Array_map_throws (measure_document q) before after d
                 DimensionMismatch); [reflexivity| |].
      * eapply Forall_impl; [|exact Hb]. apply measure_document_returns.
      * unfold measure_document.
        rewrite euclideanDistance_mismatch; [reflexivity|].
        unfold same_dimension in Hd. congruence.
Qed.

Lemma dimension_mismatch_fault_witness :
  (cosineSimilarity [1%float] [1%float; 2%float] = Throw DimensionMismatch /\
   euclideanDistance [1%float] [1%float; 2%float] = Throw DimensionMismatch) /\
  ((exists s, cosineSimilarity [1%float; 0%float] [1%float; 2%float] = Return s) /\
   (exists d, euclideanDistance [1%float; 0%float] [1%float; 2%float] = Return d)) /\
  search [1%float; 2%float] None None
         (sample_store [[3%float; 4%float]; [5%float]; [6%float; 7%float]])
  = (Throw DimensionMismatch,
     sample_store [[3%float; 4%float]; [5%float]; [6%float; 7%float]]).
Proof.
  destruct dimension_mismatch_fault as (H1 & H2 & H3).
  split; [|split].
  - apply H1. cbn. lia.
  - apply H2. reflexivity.
  - apply (H3 (sample_store [[3%float; 4%float]; [5%float]; [6%float; 7%float]])
              [1%float; 2%float] None None None
              [sample_document 1 [3%float; 4%float]]
              [sample_document 3 [6%float; 7%float]]
              (sample_document 2 [5%float])).
    + reflexivity.
    + repeat constructor.
    + unfold same_dimension. cbn. lia.
Defined.

(** C4: on vectors of one length, when the magnitude of either is zero
    [cosineSimilarity] returns exactly 0; an all-zero vector has magnitude
    zero, so paired with any vector of its length it gives 0. *)
Theorem cosine_of_zero_magnitude :
  (forall a b : vector,
     length a = length b ->
     PrimFloat.eqb (magnitude a) 0 = true \/ PrimFloat.eqb (magnitude b) 0 = true ->
     cosineSimilarity a b = Return 0%float) /\
  (forall a : vector,
     Forall (fun x => PrimFloat.eqb x 0 = true) a ->
     PrimFloat.eqb (magnitude a) 0 = true) /\
  (forall a b : vector,
     length a = length b ->
     Forall (fun x => PrimFloat.eqb x 0 = true) a ->
     cosineSimilarity a b = Return 0%float /\
     cosineSimilarity b a = Return 0%float).
Proof.
  assert (H1 : forall a b : vector,
     length a = length b ->
     PrimFloat.eqb (magnitude a) 0 = true \/ PrimFloat.eqb (magnitude b) 0 = true ->
     cosineSimilarity a b = Return 0%float).
  { intros a b Hlen Hz.
    destruct (cosineSimilarity_value a b Hlen) as [dot ->].
    destruct Hz as [-> | ->]; [reflexivity|].
    now rewrite orb_true_r. }
  assert (H2 : forall a : vector,
     Forall (fun x => PrimFloat.eqb x 0 = true) a ->
     PrimFloat.eqb (magnitude a) 0 = true).
  { intros a Ha. unfold magnitude. rewrite (sum_of_squares_zeros a Ha).
    reflexivity. }
  split; [exact H1|]. split; [exact H2|].
  intros a b Hlen Ha. split.
  - apply H1; [exact Hlen|]. left. now apply H2.
  - apply H1; [now symmetry|]. right. now apply H2.
Qed.

Lemma cosine_of_zero_magnitude_witness :
  cosineSimilarity [0%float; (-0)%float; 0%float] [1%float; 2%float; 3%float]
  = Return 0%float /\
  cosineSimilarity [1%float; 2%float; 3%float] [0%float; (-0)%float; 0%float]
  = Return 0%float.
Proof.
  destruct cosine_of_zero_magnitude as (_ & _ & H).
  apply H; [reflexivity|]. repeat constructor.
Defined.

(** ** The store *)

(** C10: [search] and [searchByDistance] leave the store as it was: the
    records, their order and the next id are the same after the call,
    whether it returns or throws; a stored record has the five fields of
    [document] and no [score] or [distance]. *)
Theorem searches_leave_store_unchanged (this : VectorStore) (q : vector)
  (topK : option Z) (threshold maxDistance : option float) :
  snd (search q topK threshold this) = this /\
  snd (searchByDistance q topK maxDistance this) = this /\
  documents (snd (search q topK threshold this)) = documents this /\
  nextId (snd (search q topK threshold this)) = nextId this /\
  documents (snd (searchByDistance q topK maxDistance this)) = documents this /\
  nextId (snd (searchByDistance q topK maxDistance this)) = nextId this.
Proof.
  assert (H1 : snd (search q topK threshold this) = this).
  { rewrite search_unfold.
    destruct (Array_map (score_document q) (documents this)); reflexivity. }
  assert (H2 : snd (searchByDistance q topK maxDistance this) = this).
  { rewrite searchByDistance_unfold.
    destruct (Array_map (measure_document q) (documents this)); reflexivity. }
  rewrite H1, H2. repeat split; reflexivity.
Qed.

(** [increment] against the addition of doubles, around the limit of the
    exact integers. *)
Lemma increment_on_doubles :
  Forall (fun n => (PrimFloat.of_uint63 (Uint63.of_Z n) + 1)%float
                   = PrimFloat.of_uint63 (Uint63.of_Z (increment n)))
         [1; 2; 2 ^ 53 - 2; 2 ^ 53 - 1; 2 ^ 53; 2 ^ 53 + 2; 2 ^ 53 + 4;
          2 ^ 54 - 4; 2 ^ 54 - 2; 2 ^ 54; 2 ^ 54 + 4; 2 ^ 55; 2 ^ 60]%Z.
Proof. repeat constructor. Qed.

Lemma serve_nextId (r : request) (this : VectorStore) :
  is_addition r = false -> nextId (snd (serve r this)) = nextId this.
Proof.
  destruct r as [text e m now|id|id|q k t|q k d]; cbn [is_addition serve snd];
    intros H; try discriminate.
  - unfold deleteDocument.
    destruct (negb (Array_findIndex _ (documents this) =? -1)%Z); reflexivity.
  - reflexivity.
  - rewrite search_unfold.
    destruct (Array_map (score_document q) (documents this)); reflexivity.
  - rewrite searchByDistance_unfold.
    destruct (Array_map (measure_document q) (documents this)); reflexivity.
Qed.

Lemma serve_no_id (r : request) (this : VectorStore) :
  is_addition r = false -> fst (serve r this) = [].
Proof. destruct r; cbn; intros H; try discriminate; reflexivity. Qed.

(** The ids a run of requests assigns are consecutive from [nextId]. *)
Lemma serve_all_ids (rs : list request) : forall this : VectorStore,
  (nextId this + Z.of_nat (additions rs) <= 2 ^ 53)%Z ->
  fst (serve_all rs this)
  = map (fun i => (nextId this + Z.of_nat i)%Z) (seq 0 (additions rs)) /\
  nextId (snd (serve_all rs this)) = (nextId this + Z.of_nat (additions rs))%Z.
Proof.
  induction rs as [|r rs IH]; intros this Hb.
  - cbn. split; [reflexivity|lia].
  - cbn [serve_all].
    destruct (is_addition r) eqn:Hr.
    + destruct r as [text e m now| | | |]; try discriminate.
      unfold additions in *. cbn [filter is_addition length] in *.
      cbn [serve addDocument doc_id].
      set (this' := {| documents := _; nextId := increment (nextId this) |}).
      assert (Hn : nextId this' = (nextId this + 1)%Z).
      { subst this'. cbn [nextId]. unfold increment.
        destruct (Z.ltb_spec (nextId this) (2 ^ 53)); lia. }
      specialize (IH this'). rewrite Hn in IH.
      destruct IH as [IH1 IH2]; [lia|].
      destruct (serve_all rs this') as [ids' this''].
      cbn [fst snd] in *. subst ids'. split; [|lia].
      cbn [seq map app]. f_equal; [f_equal; lia|].
      rewrite <- seq_shift, map_map. apply map_ext. intros i. lia.
    + pose proof (serve_nextId r this Hr) as Hn.
      pose proof (serve_no_id r this Hr) as Hi.
      destruct (serve r this) as [ids this']. cbn [fst snd] in *. subst ids.
      unfold additions in *. cbn [filter] in *. rewrite Hr in *.
      specialize (IH this'). rewrite Hn in IH.
      destruct IH as [IH1 IH2]; [lia|].
      destruct (serve_all rs this') as [ids' this'']. cbn [fst snd] in *.
      now split.
Qed.

(** C5: from a fresh store the additions receive the ids 1, 2, 3, ... in
    order, whatever deletions and searches come between them, so a
    deletion never frees an id (after the ids 1..3 and the deletion of 2
    the next id is 4); after [clear] the next addition receives id 1.
    Ids are integer-valued doubles: the count is taken below 2^53. *)
Theorem store_ids_are_sequential :
  (forall rs : list request,
     (Z.of_nat (additions rs) < 2 ^ 53)%Z ->
     fst (serve_all rs constructor) = map Z.of_nat (seq 1 (additions rs))) /\
  (forall (t1 t2 t3 t4 : jsstring) (e1 e2 e3 e4 : vector)
          (m1 m2 m3 m4 : option object) (n1 n2 n3 n4 : jsstring),
     fst (serve_all [AddDocument t1 e1 m1 n1; AddDocument t2 e2 m2 n2;
                     AddDocument t3 e3 m3 n3; DeleteDocument 2;
                     AddDocument t4 e4 m4 n4] constructor)
     = [1; 2; 3; 4]%Z) /\
  (forall (this : VectorStore) (text : jsstring) (embedding : vector)
          (metadata : option object) (now : jsstring),
     exists document this',
       addDocument text embedding metadata now (snd (clear this))
       = (Return document, this') /\
       doc_id document = 1%Z /\ documents this' = [document]).
Proof.
  split; [|split].
  - intros rs Hb.
    destruct (serve_all_ids rs constructor) as [H _].
    + cbn [constructor nextId]. lia.
    + rewrite H. cbn [constructor nextId].
      rewrite <- seq_shift, map_map. apply map_ext. intros i. lia.
  - intros. reflexivity.
  - intros this text embedding metadata now.
    eexists. eexists. split; [reflexivity|]. split; reflexivity.
Qed.

Lemma store_ids_are_sequential_witness :
  fst (serve_all
         [AddDocument (str "a") [1%float] None (str "t1");
          Search [1%float] None None;
          AddDocument (str "b") [2%float] None (str "t2");
          DeleteDocument 1;
          AddDocument (str "c") [3%float] None (str "t3")]
         constructor)
  = [1; 2; 3]%Z.
Proof.
  apply (proj1 store_ids_are_sequential
           [AddDocument (str "a") [1%float] None (str "t1");
            Search [1%float] None None;
            AddDocument (str "b") [2%float] None (str "t2");
            DeleteDocument 1;
            AddDocument (str "c") [3%float] None (str "t3")]).
  cbn. lia.
Defined.

(** ** The chunker *)

Lemma ceil_div_zero (n : nat) : 1 <= n -> ceil_div 0 n = 0.
Proof. intros H. unfold ceil_div. apply Nat.div_small. lia. Qed.

Lemma ceil_div_step (L n : nat) :
  1 <= n -> 1 <= L -> ceil_div L n = S (ceil_div (L - n) n).
Proof.
  intros Hn HL. unfold ceil_div.
  destruct (Nat.le_gt_cases n L) as [H|H].
  - replace (L + n - 1) with ((L - n + n - 1) + 1 * n) by lia.
    rewrite Nat.div_add by lia. lia.
  - replace (L - n) with 0 by lia. cbn [Nat.add].
    rewrite (Nat.div_small (n - 1) n) by lia.
    replace (L + n - 1) with ((L - 1) + 1 * n) by lia.
    rewrite Nat.div_add by lia. rewrite Nat.div_small by lia. reflexivity.
Qed.

Lemma ceil_div_positive (L n : nat) : 1 <= n -> 1 <= ceil_div L n -> 1 <= L.
Proof.
  intros Hn H. destruct L as [|L]; [|lia].
  rewrite ceil_div_zero in H by exact Hn. lia.
Qed.

(** The loop from position [i] with the chunks [chunkArray] already made:
    with enough fuel it ends, and appends the chunks of the rest of the
    text. *)
Lemma chunkText_loop_spec (text : jsstring) (n : nat) (Hn : 1 <= n) :
  forall (fuel i : nat) (chunkArray : list chunk_record),
  length text - i <= fuel * n ->
  exists rest,
    chunkText_loop fuel text n i chunkArray = Some (chunkArray ++ rest) /\
    length rest = ceil_div (length text - i) n /\
    map chunk_id rest = seq (length chunkArray + 1) (length rest) /\
    concat (map chunk rest) = skipn i text /\
    Forall (fun c => length (chunk c) = n) (removelast rest).
Proof.
  induction fuel as [|fuel IH]; intros i acc Hfuel.
  - exists []. cbn [chunkText_loop].
    destruct (Nat.ltb_spec i (length text)) as [Hlt|Hge]; [cbn in Hfuel; lia|].
    rewrite app_nil_r. replace (length text - i) with 0 by lia.
    rewrite ceil_div_zero by exact Hn. rewrite skipn_all2 by lia.
    repeat split; constructor.
  - cbn [chunkText_loop].
    destruct (Nat.ltb_spec i (length text)) as [Hlt|Hge].
    + set (c := {| chunk_id := length acc + 1;
                   chunk := String_slice text i (i + n) |}).
      destruct (IH (i + n) (acc ++ [c])) as (rest & Hloop & Hlen & Hids & Hcat & Hfull).
      { cbn [Nat.mul] in Hfuel. lia. }
      exists (c :: rest). rewrite Hloop, <- app_assoc. cbn [app].
      split; [reflexivity|].
      assert (Hslice : chunk c = firstn n (skipn i text)).
      { subst c. cbn [chunk]. unfold String_slice. f_equal. lia. }
      split; [|split; [|split]].
      * cbn [length]. rewrite Hlen.
        rewrite (ceil_div_step (length text - i) n) by lia.
        do 2 f_equal. lia.
      * cbn [map length seq]. f_equal. rewrite Hids.
        rewrite length_app. cbn [length]. f_equal. lia.
      * cbn [map concat]. rewrite Hcat, Hslice.
        replace (i + n) with (n + i) by lia.
        rewrite <- skipn_skipn. apply firstn_skipn.
      * destruct rest as [|c' rest]; [constructor|].
        cbn [removelast]. constructor; [|exact Hfull].
        rewrite Hslice, length_firstn, length_skipn.
        assert (1 <= length text - (i + n)).
        { apply (ceil_div_positive _ n Hn). rewrite <- Hlen. cbn. lia. }
        lia.
    + exists []. rewrite app_nil_r. replace (length text - i) with 0 by lia.
      rewrite ceil_div_zero by exact Hn. rewrite skipn_all2 by lia.
      repeat split; constructor.
Qed.

(** C8: for a text of length [L] and a window of [n >= 1] characters the
    loop ends (here within [L] iterations) and returns [ceil(L / n)]
    chunks with the ids 1, 2, ... in order, whose texts concatenated in
    that order are the text, and all of whose chunks but the last have
    exactly [n] characters. *)
Theorem chunkText_covers_text (text : jsstring) (n fuel : nat) :
  1 <= n -> length text <= fuel ->
  exists chunks,
    chunkText fuel text n = Some chunks /\
    length chunks = ceil_div (length text) n /\
    map chunk_id chunks = seq 1 (length chunks) /\
    concat (map chunk chunks) = text /\
    Forall (fun c => length (chunk c) = n) (removelast chunks).
Proof.
  intros Hn Hfuel.
  destruct (chunkText_loop_spec text n Hn fuel 0 [])
    as (rest & Hloop & Hlen & Hids & Hcat & Hfull).
  { nia. }
  exists rest. unfold chunkText. rewrite Hloop.
  rewrite Nat.sub_0_r in Hlen. cbn [app length Nat.add skipn] in *.
  repeat split; assumption.
Qed.

Lemma chunkText_covers_text_witness :
  exists chunks,
    chunkText 7 (str "abcdefg") 3 = Some chunks /\
    length chunks = ceil_div (length (str "abcdefg")) 3 /\
    map chunk_id chunks = seq 1 (length chunks) /\
    concat (map chunk chunks) = str "abcdefg" /\
    Forall (fun c => length (chunk c) = 3) (removelast chunks).
Proof.
  apply (chunkText_covers_text (str "abcdefg") 3 7).
  - lia.
  - cbn. lia.
Defined.

(** ** The searches *)

Lemma Forall2_right_in {A B : Type} (R : A -> B -> Prop) (l1 : list A)
  (l2 : list B) :
  Forall2 R l1 l2 -> forall y, In y l2 -> exists x, In x l1 /\ R x y.
Proof.
  induction 1 as [|x y l1 l2 Hxy _ IH]; intros z Hz; [contradiction|].
  destruct Hz as [<-|Hz].
  - exists x. split; [now left|exact Hxy].
  - destruct (IH z Hz) as (x' & Hx' & HR). exists x'. split; [now right|exact HR].
Qed.

Lemma leb_infinity_number (x : float) :
  PrimFloat.leb x PrimFloat.infinity = negb (PrimFloat.is_nan x).
Proof.
  destruct (PrimFloat.is_nan x) eqn:Hx; cbn [negb].
  - destruct (PrimFloat.leb x PrimFloat.infinity) eqn:E; [|reflexivity].
    apply leb_not_nan in E. destruct E. congruence.
  - now apply leb_infinity.
Qed.

(** C6: when every stored record has the dimension of the query,
    [search] returns: the records with their cosine similarity
    ([results]), of these the ones whose similarity is at least the
    threshold, sorted by similarity in descending order with equal
    similarities in store order ([ranked]), cut by [slice(0, topK)]: for
    a count [topK >= 0] the first [topK] of them, at most [topK]
    records. *)
Theorem search_ranks_by_similarity (this : VectorStore) (q : vector)
  (topK : option Z) (threshold : option float) :
  Forall (same_dimension q) (documents this) ->
  exists results ranked : list scored,
    Forall2 (scored_by q) (documents this) results /\
    Permutation ranked
      (filter (fun r => PrimFloat.leb (default 0%float threshold) (score r))
              results) /\
    StronglySorted (fun a b => PrimFloat.leb (score b) (score a) = true) ranked /\
    (forall v : float,
       filter (fun r => PrimFloat.eqb (score r) v) ranked
       = filter (fun r => PrimFloat.eqb (score r) v)
           (filter (fun r => PrimFloat.leb (default 0%float threshold) (score r))
                   results)) /\
    search q topK threshold this
    = (Return (Array_slice0 ranked (default 5%Z topK)), this) /\
    ((0 <= default 5 topK)%Z ->
     Array_slice0 ranked (default 5%Z topK)
     = firstn (Z.to_nat (default 5%Z topK)) ranked /\
     (Z.of_nat (length (Array_slice0 ranked (default 5%Z topK)))
      <= default 5 topK)%Z).
Proof.
  intros Hdim.
  destruct (Array_map_returns (score_document q) (documents this))
    as (results & Hmap & HF).
  { eapply Forall_impl; [|exact Hdim]. apply score_document_returns. }
  set (kept := filter (fun r => PrimFloat.leb (default 0%float threshold) (score r))
                      results).
  exists results, (Array_sort (fun a b => (score b - score a)%float) kept).
  destruct (descending_ranked score kept
              (filter_at_least_numbers score _ results)) as (Hp & Hs & Hst).
  split.
  { eapply Forall2_impl; [|exact HF]. apply score_document_scored_by. }
  split; [exact Hp|]. split; [exact Hs|]. split; [exact Hst|]. split.
  - rewrite search_unfold, Hmap. reflexivity.
  - apply Array_slice0_count.
Qed.

Lemma search_ranks_by_similarity_witness :
  exists ranked : list scored,
    search [1%float; 0%float] (Some 2%Z) None
           (sample_store [[0%float; 1%float]; [1%float; 1%float];
                          [2%float; 0%float]; [1%float; 0%float]])
    = (Return (firstn 2 ranked),
       sample_store [[0%float; 1%float]; [1%float; 1%float];
                     [2%float; 0%float]; [1%float; 0%float]]) /\
    StronglySorted (fun a b => PrimFloat.leb (score b) (score a) = true) ranked.
Proof.
  destruct (search_ranks_by_similarity
              (sample_store [[0%float; 1%float]; [1%float; 1%float];
                             [2%float; 0%float]; [1%float; 0%float]])
              [1%float; 0%float] (Some 2%Z) None)
    as (results & ranked & _ & _ & Hs & _ & Hsearch & Hcut).
  - repeat constructor.
  - exists ranked. split; [|exact Hs].
    rewrite Hsearch. cbn [default] in *.
    destruct Hcut as [-> _]; [lia|]. reflexivity.
Defined.

(** C7: when every stored record has the dimension of the query,
    [searchByDistance] returns: the records with their Euclidean distance
    ([results]), of these the ones whose distance is at most
    [maxDistance] (with no [maxDistance], every distance that is a
    number), sorted by distance in ascending order with equal distances
    in store order ([ranked]), cut by [slice(0, topK)]: for a count
    [topK >= 0] the first [topK] of them.  A stored record whose
    embedding is the query, with finite components, has distance 0; when
    results are asked for ([topK >= 1]) and 0 passes [maxDistance], the
    first result has distance 0, and it is that record when no record
    stored before it is at distance 0. *)
Theorem searchByDistance_ranks_by_distance (this : VectorStore) (q : vector)
  (topK : option Z) (maxDistance : option float) :
  Forall (same_dimension q) (documents this) ->
  exists results ranked : list distanced,
    Forall2 (distanced_by q) (documents this) results /\
    Permutation ranked
      (filter (fun r => PrimFloat.leb (distance r)
                          (default PrimFloat.infinity maxDistance)) results) /\
    StronglySorted (fun a b => PrimFloat.leb (distance a) (distance b) = true)
                   ranked /\
    (forall v : float,
       filter (fun r => PrimFloat.eqb (distance r) v) ranked
       = filter (fun r => PrimFloat.eqb (distance r) v)
           (filter (fun r => PrimFloat.leb (distance r)
                               (default PrimFloat.infinity maxDistance)) results)) /\
    searchByDistance q topK maxDistance this
    = (Return (Array_slice0 ranked (default 5%Z topK)), this) /\
    ((0 <= default 5 topK)%Z ->
     Array_slice0 ranked (default 5%Z topK)
     = firstn (Z.to_nat (default 5%Z topK)) ranked /\
     (Z.of_nat (length (Array_slice0 ranked (default 5%Z topK)))
      <= default 5 topK)%Z) /\
    (maxDistance = None ->
     Permutation ranked
       (filter (fun r => negb (PrimFloat.is_nan (distance r))) results)) /\
    (forall (before after : list document) (d : document),
       documents this = before ++ d :: after ->
       doc_embedding d = q ->
       Forall (fun x => Number_isFinite x = true) q ->
       euclideanDistance q (doc_embedding d) = Return 0%float /\
       ((1 <= default 5 topK)%Z ->
        PrimFloat.leb 0 (default PrimFloat.infinity maxDistance) = true ->
        exists first rest,
          Array_slice0 ranked (default 5%Z topK) = first :: rest /\
          PrimFloat.eqb (distance first) 0 = true /\
          (Forall (fun p => forall dist,
                     euclideanDistance q (doc_embedding p) = Return dist ->
                     PrimFloat.eqb dist 0 = false) before ->
           first = {| distanced_doc := d; distance := 0%float |}))).
Proof.
  intros Hdim.
  destruct (Array_map_returns (measure_document q) (documents this))
    as (results & Hmap & HF).
  { eapply Forall_impl; [|exact Hdim]. apply measure_document_returns. }
  assert (HF2 : Forall2 (distanced_by q) (documents this) results).
  { eapply Forall2_impl; [|exact HF]. apply measure_document_distanced_by. }
  set (bound := default PrimFloat.infinity maxDistance).
  set (pass := fun r : distanced => PrimFloat.leb (distance r) bound).
  set (kept := filter pass results).
  set (ranked := Array_sort (fun a b => (distance a - distance b)%float) kept).
  assert (Hnum : Forall (is_number distance) kept)
    by apply filter_at_most_numbers.
  exists results, ranked.
  destruct (ascending_ranked distance kept Hnum) as (Hp & Hs & Hst).
  fold ranked in Hp, Hs, Hst.
  split; [exact HF2|]. split; [exact Hp|]. split; [exact Hs|].
  split; [exact Hst|]. split.
  { rewrite searchByDistance_unfold, Hmap. reflexivity. }
  split; [apply Array_slice0_count|]. split.
  { intros ->. rewrite Hp. subst kept pass bound. cbn [default].
    erewrite filter_ext; [reflexivity|]. intros r. apply leb_infinity_number. }
  intros before after d Hdocs Hemb Hfin.
  assert (Hself : euclideanDistance q (doc_embedding d) = Return 0%float)
    by (rewrite Hemb; now apply euclideanDistance_self).
  split; [exact Hself|]. intros Hk Hbound.
  rewrite Hdocs in HF2.
  apply Forall2_app_inv_l in HF2.
  destruct HF2 as (rb & rtail & Hrb & Htail & Hres).
  inversion Htail as [|d' rd after' ra [Hrd1 Hrd2] Hra]; subst d' after' rtail.
  assert (Erd : rd = {| distanced_doc := d; distance := 0%float |}).
  { destruct rd as [dd dv]. cbn [distanced_doc distance] in Hrd1, Hrd2.
    rewrite Hself in Hrd2. injection Hrd2 as <-. now subst dd. }
  assert (Hkept : kept = filter pass rb ++ rd :: filter pass ra).
  { subst kept. rewrite Hres, filter_app. cbn [filter].
    replace (pass rd) with true; [reflexivity|].
    subst pass. cbn beta. rewrite Erd. cbn [distance]. now rewrite Hbound. }
  assert (Hkey : rank (distance rd) = 0%Z) by (rewrite Erd; reflexivity).
  assert (Hfrom : forall y, In y kept ->
            PrimFloat.is_nan (distance y) = false /\ (0 <= rank (distance y))%Z).
  { intros y Hy.
    assert (Ny : PrimFloat.is_nan (distance y) = false).
    { rewrite Forall_forall in Hnum. now apply Hnum. }
    split; [exact Ny|].
    apply filter_In in Hy. destruct Hy as [Hy _].
    assert (HF3 : Forall2 (distanced_by q) (documents this) results).
    { eapply Forall2_impl; [|exact HF]. apply measure_document_distanced_by. }
    destruct (Forall2_right_in _ _ _ HF3 y Hy) as (p & _ & _ & Hp').
    apply euclideanDistance_not_negative in Hp'.
    rewrite ltb_rank in Hp' by (exact Ny || reflexivity).
    rewrite rank_zero in Hp'. apply Z.ltb_ge in Hp'. exact Hp'. }
  destruct (sort_by_key_head (fun r => rank (distance r)) kept
              (filter pass rb) (filter pass ra) rd Hkept)
    as (h & rest & Hsort & Hh & Hfirst).
  { apply Forall_forall. intros y Hy. unfold key_le. rewrite Hkey.
    now apply Hfrom. }
  assert (Hranked : ranked = h :: rest).
  { subst ranked. rewrite (Array_sort_ascending distance kept Hnum). exact Hsort. }
  destruct (Array_slice0_count ranked (default 5%Z topK)) as [Hcut _]; [lia|].
  rewrite Hcut, Hranked.
  destruct (Z.to_nat (default 5%Z topK)) as [|m] eqn:Hm; [lia|].
  cbn [firstn]. exists h, (firstn m rest). split; [reflexivity|].
  assert (Hin : In h kept).
  { eapply Permutation_in; [exact Hp|]. rewrite Hranked. now left. }
  split.
  - rewrite eqb_rank by (apply Hfrom; exact Hin) || reflexivity.
    rewrite rank_zero. apply Z.eqb_eq. lia.
  - intros Hbefore. rewrite <- Erd. apply Hfirst.
    apply Forall_forall. intros y Hy. rewrite Hkey.
    apply filter_In in Hy. destruct Hy as [Hy Hpass].
    destruct (Forall2_right_in _ _ _ Hrb y Hy) as (p & Hp1 & _ & Hp2).
    rewrite Forall_forall in Hbefore.
    specialize (Hbefore p Hp1 (distance y) Hp2).
    assert (Ny : PrimFloat.is_nan (distance y) = false).
    { subst pass. cbn beta in Hpass. now apply leb_not_nan in Hpass. }
    rewrite eqb_rank in Hbefore by (exact Ny || reflexivity).
    rewrite rank_zero in Hbefore. now apply Z.eqb_neq in Hbefore.
Qed.

Lemma searchByDistance_ranks_by_distance_witness :
  exists first rest,
    searchByDistance [1%float; 2%float] None None
      (sample_store [[3%float; 4%float]; [1%float; 2%float]; [0%float; 0%float]])
    = (Return (first :: rest),
       sample_store [[3%float; 4%float]; [1%float; 2%float]; [0%float; 0%float]]) /\
    first = {| distanced_doc := sample_document 2 [1%float; 2%float];
               distance := 0%float |}.
Proof.
  destruct (searchByDistance_ranks_by_distance
              (sample_store [[3%float; 4%float]; [1%float; 2%float];
                             [0%float; 0%float]])
              [1%float; 2%float] None None)
    as (results & ranked & _ & _ & _ & _ & Hsearch & _ & _ & Hsame).
  - repeat constructor.
  - destruct (Hsame [sample_document 1 [3%float; 4%float]]
                    [sample_document 3 [0%float; 0%float]]
                    (sample_document 2 [1%float; 2%float]))
      as [_ Hfirst].
    + reflexivity.
    + reflexivity.
    + repeat constructor.
    + destruct Hfirst as (first & rest & Hcut & _ & Hid).
      * cbn. lia.
      * reflexivity.
      * exists first, rest. rewrite Hsearch, Hcut. split; [reflexivity|].
        apply Hid. repeat constructor. intros dist H.
        vm_compute in H. injection H as <-. reflexivity.
Defined.

(** C7, as the claim states it, fails: a stored record whose embedding
    equals the query need not rank first and need not have distance 0.
    - Store [[2^-600]; [0]], query [[0]]: the square of 2^-600 underflows
      to 0, so record 1 is at distance 0 too and, stored first, ranks
      first; with [topK = 1] record 2, whose embedding is the query, is
      not returned.
    - The texts "hello" and "Hello" have one embedding: with [topK = 1]
      the query "Hello" gets record 1 only.
    - [Infinity - Infinity] is NaN: the record [[Infinity]] is at distance
      NaN from the query [[Infinity]] and is dropped by the filter.
    - With [topK = 0], or with a [maxDistance] below 0, nothing is
      returned. *)
Lemma searchByDistance_equal_record_not_first :
  fst (searchByDistance [0%float] (Some 1%Z) None
         (sample_store [[0x1p-600%float]; [0%float]]))
  = Return [{| distanced_doc := sample_document 1 [0x1p-600%float];
               distance := 0%float |}] /\
  match fst (searchByDistance (generateEmbedding (str "Hello")) (Some 1%Z) None
               (snd (serve_all
                       [AddDocument (str "hello")
                                    (generateEmbedding (str "hello")) None
                                    (str "t0");
                        AddDocument (str "Hello")
                                    (generateEmbedding (str "Hello")) None
                                    (str "t1")]
                       constructor))) with
  | Return results => map (fun r => doc_id (distanced_doc r)) results
  | Throw _ => []
  end = [1%Z] /\
  euclideanDistance [PrimFloat.infinity] [PrimFloat.infinity]
  = Return PrimFloat.nan /\
  fst (searchByDistance [PrimFloat.infinity] None None
         (sample_store [[PrimFloat.infinity]])) = Return [] /\
  fst (searchByDistance [1%float] (Some 0%Z) None (sample_store [[1%float]]))
  = Return [] /\
  fst (searchByDistance [1%float] None (Some (-1)%float)
         (sample_store [[1%float]])) = Return [].
Proof. repeat split; vm_compute; reflexivity. Qed.

(** * Further properties *)

(** ** More on binary64 arithmetic *)

Section Binary64Arithmetic.

Local Open Scope Z_scope.

Lemma shr_1_nonneg mrs : 0 <= shr_m mrs -> 0 <= shr_m (shr_1 mrs).
Proof.
  destruct mrs as [m r s]. cbn [shr_m]. intros H.
  destruct m as [|[p|p|]|p]; cbn [shr_1 shr_m]; lia.
Qed.

Lemma iter_shr_1_nonneg p : forall mrs,
  0 <= shr_m mrs -> 0 <= shr_m (iter_pos shr_1 p mrs).
Proof.
  induction p as [p IH|p IH|]; intros mrs H; cbn [iter_pos].
  - apply IH, IH, shr_1_nonneg, H.
  - apply IH, IH, H.
  - apply shr_1_nonneg, H.
Qed.

Lemma shr_fexp_nonneg m e l :
  0 <= m -> 0 <= shr_m (fst (shr_fexp prec emax m e l)).
Proof.
  intros H. unfold shr_fexp, shr.
  destruct (fexp prec emax (Zdigits2 m + e) - e) as [|p|p]; cbn [fst];
    try (rewrite shr_m_of_loc; exact H).
  apply iter_shr_1_nonneg. rewrite shr_m_of_loc. exact H.
Qed.

Lemma round_nearest_even_nonneg m l : 0 <= m -> 0 <= round_nearest_even m l.
Proof.
  intros H. destruct l as [|[]]; cbn [round_nearest_even];
    try destruct (Z.even m); lia.
Qed.

(** Rounding a significand that is not negative gives a zero, a finite
    datum or an infinity of the sign asked for, never NaN. *)
Lemma binary_round_aux_of_sign s m e l :
  0 <= m -> SFof_sign s (binary_round_aux prec emax s m e l).
Proof.
  intros H. unfold binary_round_aux.
  pose proof (shr_fexp_nonneg m e l H) as H1.
  destruct (shr_fexp prec emax m e l) as [mrs' e']. cbn [fst] in H1.
  pose proof (round_nearest_even_nonneg _ (loc_of_shr_record mrs') H1) as H2.
  pose proof (shr_fexp_nonneg _ e' loc_Exact H2) as H3.
  destruct (shr_fexp prec emax _ e' loc_Exact) as [mrs'' e'']. cbn [fst] in H3.
  destruct (shr_m mrs'') as [|q|q]; try lia; [reflexivity|].
  destruct (e'' <=? emax - prec); reflexivity.
Qed.

(** Rounding does not look at the sign. *)
Lemma binary_round_aux_abs s m e l :
  SFabs (binary_round_aux prec emax s m e l)
  = SFabs (binary_round_aux prec emax false m e l).
Proof.
  unfold binary_round_aux.
  destruct (shr_fexp prec emax m e l) as [mrs' e'].
  destruct (shr_fexp prec emax _ e' loc_Exact) as [mrs'' e''].
  destruct (shr_m mrs''); try reflexivity.
  destruct (e'' <=? emax - prec); reflexivity.
Qed.

Lemma binary_normalize_opp_abs m e :
  SFabs (binary_normalize prec emax (- m) e false)
  = SFabs (binary_normalize prec emax m e false).
Proof.
  destruct m as [|m|m]; cbn [Z.opp binary_normalize]; [reflexivity| |];
    unfold binary_round; destruct (shl_align m e _) as [mz ez].
  - apply binary_round_aux_abs.
  - symmetry. apply binary_round_aux_abs.
Qed.

Lemma binary_normalize_not_nan m e :
  SFis_nan (binary_normalize prec emax m e false) = false.
Proof.
  destruct m as [|m|m]; cbn [binary_normalize]; [reflexivity| |];
    unfold binary_round; destruct (shl_align m e _) as [mz ez].
  - pose proof (binary_round_aux_of_sign false (Zpos mz) ez loc_Exact) as H.
    destruct (binary_round_aux prec emax false (Zpos mz) ez loc_Exact);
      try reflexivity. exfalso. apply H. lia.
  - pose proof (binary_round_aux_of_sign true (Zpos mz) ez loc_Exact) as H.
    destruct (binary_round_aux prec emax true (Zpos mz) ez loc_Exact);
      try reflexivity. exfalso. apply H. lia.
Qed.

(** [x - y] and [y - x] differ in sign only. *)
Lemma SFsub_swap_abs x y : SFabs (SF64sub x y) = SFabs (SF64sub y x).
Proof.
  destruct x as [sx|sx| |sx mx ex], y as [sy|sy| |sy my ey];
    try reflexivity;
    try (destruct sx, sy; reflexivity).
  unfold SF64sub, SFsub. rewrite (Z.min_comm ey ex).
  rewrite <- binary_normalize_opp_abs. f_equal. f_equal. lia.
Qed.

Lemma SFmul_self_abs x y : SFabs x = SFabs y -> SF64mul x x = SF64mul y y.
Proof.
  destruct x as [sx|sx| |sx mx ex], y as [sy|sy| |sy my ey];
    cbn [SFabs]; intros H; try discriminate H; try reflexivity.
  - unfold SF64mul, SFmul. now rewrite !xorb_nilpotent.
  - unfold SF64mul, SFmul. now rewrite !xorb_nilpotent.
  - injection H as -> ->. unfold SF64mul, SFmul. now rewrite !xorb_nilpotent.
Qed.

Lemma SFmul_comm x y : SF64mul x y = SF64mul y x.
Proof.
  destruct x as [sx|sx| |sx mx ex], y as [sy|sy| |sy my ey];
    unfold SF64mul, SFmul; try reflexivity;
    rewrite (xorb_comm sy sx); try reflexivity.
  now rewrite (Pos.mul_comm my mx), (Z.add_comm ey ex).
Qed.

Lemma SFof_sign_not_negative r : SFof_sign false r -> SFnot_negative r.
Proof. destruct r as [s|s| |s m e]; cbn; intros H; subst; exact I || exact H. Qed.

Lemma SFmul_self_not_negative x :
  SFis_nan x = false -> SFnot_negative (SF64mul x x).
Proof.
  destruct x as [s|s| |s m e]; intros H; try discriminate H;
    unfold SF64mul, SFmul; rewrite xorb_nilpotent; try exact I.
  apply SFof_sign_not_negative, binary_round_aux_of_sign. lia.
Qed.

Lemma SFadd_not_negative x y :
  SFnot_negative x -> SFnot_negative y -> SFnot_negative (SF64add x y).
Proof.
  destruct x as [sx|sx| |sx mx ex], y as [sy|sy| |sy my ey];
    cbn [SFnot_negative]; intros Hx Hy; try contradiction;
    try (destruct sx; try contradiction);
    try (destruct sy; try contradiction);
    try exact I.
  unfold SF64add, SFadd. cbn [cond_Zopp].
  set (ez := Z.min ex ey).
  destruct (Zpos (fst (shl_align mx ex ez)) + Zpos (fst (shl_align my ey ez)))
    as [|m|m] eqn:E; try lia.
  cbn [binary_normalize]. unfold binary_round.
  destruct (shl_align m ez _) as [mz ez'].
  apply SFof_sign_not_negative, binary_round_aux_of_sign. lia.
Qed.

Lemma SFsub_finite_not_nan x y :
  match x with S754_zero _ | S754_finite _ _ _ => True | _ => False end ->
  match y with S754_zero _ | S754_finite _ _ _ => True | _ => False end ->
  SFis_nan (SF64sub x y) = false.
Proof.
  destruct x as [sx|sx| |sx mx ex], y as [sy|sy| |sy my ey];
    intros Hx Hy; try contradiction; try reflexivity.
  - destruct sx, sy; reflexivity.
  - unfold SF64sub, SFsub. apply binary_normalize_not_nan.
Qed.

Lemma SFsqrt_not_negative x : SFnot_negative x -> SFnot_negative (SF64sqrt x).
Proof.
  destruct x as [s|s| |s m e]; cbn [SFnot_negative]; intros H;
    try contradiction; try exact I.
  - destruct s; [contradiction|exact I].
  - destruct s; [contradiction|].
    unfold SF64sqrt, SFsqrt, SFsqrt_core_binary.
    set (m' := match e - 2 * _ with Zpos _ => _ | Z0 => _ | Zneg _ => _ end).
    pose proof (Z.sqrtrem_sqrt m') as Hq.
    pose proof (Z.sqrt_nonneg m') as Hn.
    destruct (Z.sqrtrem m') as [q r]. cbn [fst] in Hq. subst q.
    apply SFof_sign_not_negative, binary_round_aux_of_sign. exact Hn.
Qed.

End Binary64Arithmetic.

(** The product of two doubles does not depend on their order. *)
Lemma Number_mul_comm (x y : float) : (x * y)%float = (y * x)%float.
Proof. apply Prim2SF_inj. rewrite !FloatAxioms.mul_spec. apply SFmul_comm. Qed.

(** [Math.pow(a - b, 2)] and [Math.pow(b - a, 2)] are the same double. *)
Lemma Math_pow2_sub_swap (a b : float) :
  Math_pow2 (a - b) = Math_pow2 (b - a).
Proof.
  unfold Math_pow2. apply Prim2SF_inj. rewrite !FloatAxioms.mul_spec.
  apply SFmul_self_abs. rewrite !FloatAxioms.sub_spec. apply SFsub_swap_abs.
Qed.

Lemma not_negative_number (x : float) :
  SFnot_negative (Prim2SF x) ->
  PrimFloat.is_nan x = false /\ PrimFloat.ltb x 0 = false.
Proof.
  rewrite is_nan_spec, FloatAxioms.ltb_spec, Prim2SF_zero.
  destruct (Prim2SF x) as [s|s| |s m e]; cbn; intros H; try contradiction;
    try (destruct s; try contradiction); auto.
Qed.

Lemma Number_isFinite_spec (x : float) :
  Number_isFinite x = true ->
  match Prim2SF x with S754_zero _ | S754_finite _ _ _ => True | _ => False end.
Proof.
  unfold Number_isFinite. destruct (Prim2SF x); intros H; try discriminate; exact I.
Qed.

Lemma fold_left_ext_in {A B : Type} (f g : A -> B -> A) (l : list B) :
  (forall acc x, In x l -> f acc x = g acc x) ->
  forall acc, fold_left f l acc = fold_left g l acc.
Proof.
  induction l as [|x l IH]; intros H acc; cbn [fold_left]; [reflexivity|].
  rewrite (H acc x) by now left. apply IH. intros a y Hy. apply H. now right.
Qed.

Lemma fold_left_invariant {A B : Type} (P : A -> Prop) (f : A -> B -> A)
  (l : list B) :
  (forall acc x, In x l -> P acc -> P (f acc x)) ->
  forall acc, P acc -> P (fold_left f l acc).
Proof.
  induction l as [|x l IH]; intros H acc Hacc; cbn [fold_left]; [exact Hacc|].
  apply IH.
  - intros a y Hy. apply H. now right.
  - apply H; [now left|exact Hacc].
Qed.

(** ** The metrics, further *)

Lemma cosine_loop_swap (a b : vector) (l : list nat) : forall d ma mb,
  fold_left (cosine_step b a) l (d, mb, ma)
  = let '(d', x, y) := fold_left (cosine_step a b) l (d, ma, mb) in (d', y, x).
Proof.
  induction l as [|i l IH]; intros d ma mb; cbn [fold_left]; [reflexivity|].
  cbn [cosine_step]. rewrite (Number_mul_comm (at_index b i) (at_index a i)).
  apply IH.
Qed.

(** X1: both metrics are symmetric, to the last bit and with the same
    exception: [cosineSimilarity(a, b)] and [cosineSimilarity(b, a)] have
    one outcome, and so have [euclideanDistance(a, b)] and
    [euclideanDistance(b, a)], for all vectors of doubles. *)
Theorem metrics_are_symmetric (a b : vector) :
  cosineSimilarity a b = cosineSimilarity b a /\
  euclideanDistance a b = euclideanDistance b a.
Proof.
  split.
  - unfold cosineSimilarity, cosine_loop. rewrite (Nat.eqb_sym (length b)).
    destruct (Nat.eqb_spec (length a) (length b)) as [E|N]; cbn [negb];
      [|reflexivity].
    rewrite <- E, (cosine_loop_swap a b).
    destruct (fold_left (cosine_step a b) (seq 0 (length a)) _)
      as [[d ma] mb].
    rewrite (orb_comm (PrimFloat.eqb (Math_sqrt mb) 0)).
    now rewrite (Number_mul_comm (Math_sqrt mb)).
  - unfold euclideanDistance. rewrite (Nat.eqb_sym (length b)).
    destruct (Nat.eqb_spec (length a) (length b)) as [E|N]; cbn [negb];
      [|reflexivity].
    rewrite <- E. do 2 f_equal. apply fold_left_ext_in.
    intros acc i _. unfold euclidean_step. now rewrite Math_pow2_sub_swap.
Qed.

Lemma euclideanDistance_finite_number (a b : vector) :
  length a = length b ->
  Forall (fun x => Number_isFinite x = true) a ->
  Forall (fun x => Number_isFinite x = true) b ->
  exists d,
    euclideanDistance a b = Return d /\
    PrimFloat.is_nan d = false /\ PrimFloat.ltb d 0 = false.
Proof.
  intros Hlen Ha Hb. rewrite (euclideanDistance_value a b Hlen).
  eexists. split; [reflexivity|]. apply not_negative_number.
  unfold Math_sqrt. rewrite FloatAxioms.sqrt_spec. apply SFsqrt_not_negative.
  apply (fold_left_invariant (fun s => SFnot_negative (Prim2SF s))).
  - intros acc i Hi Hacc. apply in_seq in Hi. unfold euclidean_step.
    rewrite FloatAxioms.add_spec. apply SFadd_not_negative; [exact Hacc|].
    unfold Math_pow2. rewrite FloatAxioms.mul_spec.
    apply SFmul_self_not_negative. rewrite FloatAxioms.sub_spec.
    rewrite Forall_forall in Ha, Hb.
    apply SFsub_finite_not_nan; apply Number_isFinite_spec.
    + apply Ha. unfold at_index. apply nth_In. lia.
    + apply Hb. unfold at_index. apply nth_In. lia.
  - rewrite Prim2SF_zero. exact I.
Qed.

(** X2: on two vectors of one length whose components are all finite,
    [euclideanDistance] returns a number that is not NaN and not below
    zero (it can be [Infinity], when a square overflows). *)
Theorem euclideanDistance_of_finite_vectors (a b : vector) :
  length a = length b ->
  Forall (fun x => Number_isFinite x = true) a ->
  Forall (fun x => Number_isFinite x = true) b ->
  exists d,
    euclideanDistance a b = Return d /\
    PrimFloat.is_nan d = false /\ PrimFloat.ltb d 0 = false.
Proof. apply euclideanDistance_finite_number. Qed.

Lemma euclideanDistance_of_finite_vectors_witness :
  exists d,
    euclideanDistance [1%float; (-2)%float] [4%float; 2%float] = Return d /\
    PrimFloat.is_nan d = false /\ PrimFloat.ltb d 0 = false.
Proof.
  apply euclideanDistance_of_finite_vectors.
  - reflexivity.
  - repeat constructor.
  - repeat constructor.
Defined.

(** ** The store, further *)

Lemma Array_findIndex_spec {A : Type} (p : A -> bool) (l : list A) :
  (Array_findIndex p l = (-1)%Z /\ Forall (fun x => p x = false) l) \/
  (exists before x after,
     l = before ++ x :: after /\
     Forall (fun y => p y = false) before /\ p x = true /\
     Array_findIndex p l = Z.of_nat (length before)).
Proof.
  induction l as [|x l IH]; cbn [Array_findIndex].
  - left. split; [reflexivity|constructor].
  - destruct (p x) eqn:Px.
    + right. exists [], x, l. repeat split; [constructor|exact Px].
    + destruct IH as [[Hi Hall]|(before & y & after & Hl & Hb & Py & Hi)].
      * left. rewrite Hi. split; [reflexivity|now constructor].
      * right. exists (x :: before), y, after. rewrite Hi.
        destruct (Z.eqb_spec (Z.of_nat (length before)) (-1)) as [E|_]; [lia|].
        repeat split; [now rewrite Hl|now constructor|exact Py|].
        cbn [length]. lia.
Qed.

Lemma Array_splice1_middle {A : Type} (before after : list A) (x : A) :
  Array_splice1 (before ++ x :: after) (Z.of_nat (length before))
  = before ++ after.
Proof.
  unfold Array_splice1. rewrite Nat2Z.id. f_equal.
  - rewrite firstn_app, firstn_all, Nat.sub_diag. cbn [firstn].
    apply app_nil_r.
  - rewrite skipn_app, skipn_all2 by lia.
    replace (S (length before) - length before) with 1 by lia. reflexivity.
Qed.

Lemma no_id_not_stored (id : Z) (l : list document) :
  Forall (fun d => (doc_id d =? id)%Z = false) l <-> ~ In id (map doc_id l).
Proof.
  rewrite Forall_forall, in_map_iff. split.
  - intros H (d & Hd & Hin). specialize (H d Hin). apply Z.eqb_neq in H. auto.
  - intros H d Hin. apply Z.eqb_neq. intros E. apply H. now exists d.
Qed.

(** What [deleteDocument] does: nothing when the id is not stored, else
    it removes the first record with the id. *)
Lemma deleteDocument_cases (id : Z) (this : VectorStore) :
  (~ In id (map doc_id (documents this)) /\
   deleteDocument id this = (Return false, this)) \/
  (exists before x after,
     documents this = before ++ x :: after /\ doc_id x = id /\
     ~ In id (map doc_id before) /\
     deleteDocument id this
     = (Return true, {| documents := before ++ after; nextId := nextId this |})).
Proof.
  unfold deleteDocument.
  destruct (Array_findIndex_spec (fun doc => (doc_id doc =? id)%Z)
              (documents this))
    as [[Hi Hall]|(before & x & after & Hl & Hb & Px & Hi)].
  - left. rewrite Hi. split; [now apply no_id_not_stored|reflexivity].
  - right. exists before, x, after. rewrite Hi.
    destruct (Z.eqb_spec (Z.of_nat (length before)) (-1)) as [E|_]; [lia|].
    cbn [negb]. rewrite Hl at 2. rewrite Array_splice1_middle.
    repeat split; try assumption.
    + now apply Z.eqb_eq.
    + now apply no_id_not_stored.
Qed.

Lemma find_last {A : Type} (p : A -> bool) (l : list A) (x : A) :
  find p (l ++ [x])
  = match find p l with
    | Some y => Some y
    | None => if p x then Some x else None
    end.
Proof.
  induction l as [|y l IH]; cbn [app find]; [reflexivity|].
  destruct (p y); [reflexivity|exact IH].
Qed.

Lemma find_none {A : Type} (p : A -> bool) (l : list A) :
  Forall (fun x => p x = false) l -> find p l = None.
Proof.
  induction 1 as [|x l Hx _ IH]; cbn [find]; [reflexivity|].
  now rewrite Hx.
Qed.

Lemma find_skip {A : Type} (p : A -> bool) (before after : list A) (x : A) :
  p x = false -> find p (before ++ x :: after) = find p (before ++ after).
Proof.
  intros Hx. induction before as [|y before IH]; cbn [app find].
  - now rewrite Hx.
  - destruct (p y); [reflexivity|exact IH].
Qed.

Lemma StronglySorted_remove {A : Type} (R : A -> A -> Prop)
  (before after : list A) (x : A) :
  StronglySorted R (before ++ x :: after) -> StronglySorted R (before ++ after).
Proof.
  induction before as [|y before IH]; cbn [app]; intros H.
  - now apply StronglySorted_inv in H.
  - apply StronglySorted_inv in H. destruct H as [Hs Hy].
    constructor; [now apply IH|].
    rewrite Forall_app in *. destruct Hy as [Hb Ha].
    split; [exact Hb|]. now apply Forall_inv_tail in Ha.
Qed.

(** In a store whose ids are in order no two records share an id. *)
Lemma ids_in_order_unique (l : list document) (before after : list document)
  (x : document) :
  StronglySorted Z.lt (map doc_id l) -> l = before ++ x :: after ->
  ~ In (doc_id x) (map doc_id before) /\ ~ In (doc_id x) (map doc_id after).
Proof.
  intros Hs ->. rewrite map_app in Hs. cbn [map] in Hs.
  induction before as [|y before IH]; cbn [map app] in *.
  - apply StronglySorted_inv in Hs. destruct Hs as [_ Hx].
    rewrite Forall_forall in Hx. split; [auto|].
    intros Hin. specialize (Hx _ Hin). lia.
  - apply StronglySorted_inv in Hs. destruct Hs as [Hs Hy].
    destruct (IH Hs) as [Hb Ha]. split; [|exact Ha].
    intros [E|Hin]; [|auto].
    rewrite Forall_forall in Hy.
    assert (Hlt : (doc_id y < doc_id x)%Z).
    { apply Hy. apply in_or_app. right. now left. }
    lia.
Qed.

Lemma deleteDocument_in_order (id : Z) (this : VectorStore) :
  ids_in_order this -> ids_in_order (snd (deleteDocument id this)).
Proof.
  intros (Hs & Hb & Hn).
  destruct (deleteDocument_cases id this)
    as [[_ ->]|(before & x & after & Hl & _ & _ & ->)]; cbn [snd].
  - now repeat split.
  - unfold ids_in_order. cbn [documents nextId]. rewrite Hl in Hs, Hb.
    repeat split; try lia.
    + rewrite map_app in *. cbn [map] in Hs.
      now apply StronglySorted_remove in Hs.
    + rewrite Forall_app in *. destruct Hb as [H1 H2].
      split; [exact H1|]. now apply Forall_inv_tail in H2.
Qed.

Lemma addDocument_in_order (text : jsstring) (embedding : vector)
  (metadata : option object) (now : jsstring) (this : VectorStore) :
  ids_in_order this -> (nextId this < 2 ^ 53)%Z ->
  ids_in_order (snd (addDocument text embedding metadata now this)) /\
  nextId (snd (addDocument text embedding metadata now this))
  = (nextId this + 1)%Z.
Proof.
  intros (Hs & Hb & Hn) Hlt. unfold addDocument, ids_in_order.
  cbn [snd documents nextId]. unfold increment.
  destruct (Z.ltb_spec (nextId this) (2 ^ 53)) as [_|]; [|lia].
  split; [|reflexivity]. repeat split; try lia.
  - rewrite map_app. cbn [map doc_id].
    clear Hn Hlt. induction (documents this) as [|y l IH]; cbn [map app].
    + repeat constructor.
    + cbn [map] in Hs. apply StronglySorted_inv in Hs. destruct Hs as [Hs Hy].
      apply Forall_cons_iff in Hb. destruct Hb as [Hy1 Hb].
      constructor; [now apply IH|].
      apply Forall_app. split; [exact Hy|]. repeat constructor. lia.
  - apply Forall_app. split.
    + eapply Forall_impl; [|exact Hb]. cbn beta. intros d Hd. lia.
    + repeat constructor; cbn [doc_id]; lia.
Qed.

Lemma serve_in_order (r : request) (this : VectorStore) :
  ids_in_order this ->
  (is_addition r = true -> (nextId this < 2 ^ 53)%Z) ->
  ids_in_order (snd (serve r this)) /\
  nextId (snd (serve r this))
  = (nextId this + (if is_addition r then 1 else 0))%Z.
Proof.
  intros Hord Hadd.
  destruct r as [text e m now|id|id|q k t|q k d]; cbn [is_addition] in *.
  - cbn [serve].
    pose proof (addDocument_in_order text e m now this Hord (Hadd eq_refl)) as H.
    unfold addDocument in *. cbn [snd] in *. exact H.
  - cbn [serve snd]. split; [now apply deleteDocument_in_order|].
    pose proof (serve_nextId (DeleteDocument id) this eq_refl) as H.
    cbn [serve snd] in H. rewrite H. lia.
  - cbn. split; [exact Hord|lia].
  - cbn [serve snd].
    replace (snd (search q k t this)) with this; [split; [exact Hord|lia]|].
    rewrite search_unfold.
    destruct (Array_map (score_document q) (documents this)); reflexivity.
  - cbn [serve snd].
    replace (snd (searchByDistance q k d this)) with this;
      [split; [exact Hord|lia]|].
    rewrite searchByDistance_unfold.
    destruct (Array_map (measure_document q) (documents this)); reflexivity.
Qed.

Lemma serve_all_in_order (rs : list request) : forall this : VectorStore,
  ids_in_order this ->
  (nextId this + Z.of_nat (additions rs) <= 2 ^ 53)%Z ->
  ids_in_order (snd (serve_all rs this)).
Proof.
  induction rs as [|r rs IH]; intros this Hord Hb; [exact Hord|].
  cbn [serve_all].
  assert (Hstep : is_addition r = true -> (nextId this < 2 ^ 53)%Z).
  { intros Hr. unfold additions in Hb. cbn [filter] in Hb. rewrite Hr in Hb.
    cbn [length] in Hb. lia. }
  destruct (serve_in_order r this Hord Hstep) as [Hord' Hn].
  destruct (serve r this) as [ids this']. cbn [snd] in *.
  specialize (IH this' Hord').
  destruct (serve_all rs this') as [ids' this'']. cbn [snd] in *.
  apply IH. rewrite Hn. unfold additions in *. cbn [filter] in Hb.
  destruct (is_addition r); cbn [length] in Hb; lia.
Qed.

Lemma sorted_ids_NoDup (l : list Z) : StronglySorted Z.lt l -> NoDup l.
Proof.
  induction 1 as [|x l _ IH Hx]; constructor; [|exact IH].
  intros Hin. rewrite Forall_forall in Hx. specialize (Hx x Hin). lia.
Qed.

(** X3: whatever additions, deletions, lookups and searches a fresh store
    has served (fewer than 2^53 additions), its records carry ids that
    rise in store order, lie between 1 and [nextId], and are pairwise
    different. *)
Theorem served_store_ids_in_order (rs : list request) :
  (Z.of_nat (additions rs) < 2 ^ 53)%Z ->
  ids_in_order (snd (serve_all rs constructor)) /\
  NoDup (map doc_id (documents (snd (serve_all rs constructor)))).
Proof.
  intros Hb.
  assert (H : ids_in_order (snd (serve_all rs constructor))).
  { apply serve_all_in_order.
    - unfold ids_in_order, constructor. cbn [documents nextId map].
      repeat split; try constructor; try lia; cbn; lia.
    - cbn [constructor nextId]. lia. }
  split; [exact H|]. apply sorted_ids_NoDup, H.
Qed.

Lemma served_store_ids_in_order_witness :
  NoDup (map doc_id (documents (snd (serve_all
    [AddDocument (str "a") [1%float] None (str "t1");
     AddDocument (str "b") [2%float] None (str "t2");
     DeleteDocument 1;
     AddDocument (str "c") [3%float] None (str "t3")] constructor)))).
Proof.
  apply served_store_ids_in_order. cbn. lia.
Defined.

(** X4: [addDocument] returns the record it stored, with the fields it
    was given and the id [nextId]; on a store whose ids are in order,
    [getDocument] of that id then finds this record, every other lookup
    answers as before, and the ids are still in order. *)
Theorem addDocument_then_getDocument (text : jsstring) (embedding : vector)
  (metadata : option object) (now : jsstring) (this : VectorStore) :
  ids_in_order this -> (nextId this < 2 ^ 53)%Z ->
  exists document this',
    addDocument text embedding metadata now this = (Return document, this') /\
    document = {| doc_id := nextId this; doc_text := text;
                  doc_embedding := embedding;
                  doc_metadata := default [] metadata;
                  doc_timestamp := now |} /\
    documents this' = documents this ++ [document] /\
    fst (getDocument (doc_id document) this') = Return (Some document) /\
    (forall id, id <> doc_id document ->
       fst (getDocument id this') = fst (getDocument id this)) /\
    ids_in_order this'.
Proof.
  intros Hord Hlt.
  destruct (addDocument_in_order text embedding metadata now this Hord Hlt)
    as [Hord' _].
  unfold addDocument in *. cbn [snd] in Hord'.
  eexists. eexists. split; [reflexivity|]. split; [reflexivity|].
  split; [reflexivity|]. cbn [doc_id]. unfold getDocument. cbn [fst documents].
  split; [|split; [|exact Hord']].
  - rewrite find_last. cbn [doc_id]. rewrite Z.eqb_refl.
    rewrite find_none; [reflexivity|].
    destruct Hord as (_ & Hb & _). eapply Forall_impl; [|exact Hb].
    cbn beta. intros d Hd. apply Z.eqb_neq. lia.
  - intros id Hid. rewrite find_last. cbn [doc_id].
    rewrite (proj2 (Z.eqb_neq (nextId this) id)) by congruence.
    now destruct (find _ (documents this)).
Qed.

Lemma addDocument_then_getDocument_witness :
  exists document this',
    addDocument (str "c") [3%float] None (str "t3")
                (sample_store [[1%float]; [2%float]])
    = (Return document, this') /\
    fst (getDocument 3 this') = Return (Some document).
Proof.
  destruct (addDocument_then_getDocument (str "c") [3%float] None (str "t3")
              (sample_store [[1%float]; [2%float]]))
    as (document & this' & Hadd & Hdoc & _ & Hget & _).
  - unfold ids_in_order, sample_store. cbn.
    repeat split; repeat constructor; cbn; lia.
  - cbn. lia.
  - exists document, this'. split; [exact Hadd|].
    rewrite Hdoc in Hget. cbn [doc_id] in Hget. rewrite Hdoc. exact Hget.
Defined.

(** X5: [deleteDocument] returns [true] exactly when a record with the id
    is stored.  When it returns [false] the store is untouched; when it
    returns [true] the store holds one record fewer; the next id is the
    same in both cases, and the lookup of any other id answers as
    before. *)
Theorem deleteDocument_reports (id : Z) (this : VectorStore) :
  exists (deleted : bool) (this' : VectorStore),
    deleteDocument id this = (Return deleted, this') /\
    (deleted = true <-> In id (map doc_id (documents this))) /\
    (deleted = false -> this' = this) /\
    (deleted = true -> S (length (documents this')) = length (documents this)) /\
    nextId this' = nextId this /\
    (forall id', id' <> id ->
       fst (getDocument id' this') = fst (getDocument id' this)).
Proof.
  destruct (deleteDocument_cases id this)
    as [[Hno ->]|(before & x & after & Hl & Hx & _ & ->)].
  - exists false, this. split; [reflexivity|]. split.
    + split; [discriminate|contradiction].
    + repeat split; auto. discriminate.
  - eexists true, _. split; [reflexivity|]. split.
    + split; [|reflexivity]. intros _. rewrite Hl, map_app. cbn [map].
      apply in_or_app. right. left. exact Hx.
    + split; [discriminate|]. split.
      * intros _. cbn [documents]. rewrite Hl, !length_app. cbn [length]. lia.
      * split; [reflexivity|]. intros id' Hid.
        unfold getDocument. cbn [fst documents]. rewrite Hl.
        rewrite find_skip; [reflexivity|]. apply Z.eqb_neq. congruence.
Qed.

(** X6: on a store whose ids are in order, after [deleteDocument(id)] the
    stored records are the former ones without the record of that id, in
    their former order; the id is no longer found, a second deletion of
    it returns [false], and the ids are still in order. *)
Theorem deleteDocument_removes_the_record (id : Z) (this : VectorStore) :
  ids_in_order this ->
  let this' := snd (deleteDocument id this) in
  documents this'
  = filter (fun d => negb (doc_id d =? id)%Z) (documents this) /\
  fst (getDocument id this') = Return None /\
  fst (deleteDocument id this') = Return false /\
  ids_in_order this'.
Proof.
  intros Hord this'.
  assert (Hord' : ids_in_order this') by now apply deleteDocument_in_order.
  assert (Hdocs : documents this'
                  = filter (fun d => negb (doc_id d =? id)%Z) (documents this)).
  { subst this'.
    assert (Hkeep : forall l, ~ In id (map doc_id l) ->
              filter (fun d => negb (doc_id d =? id)%Z) l = l).
    { intros l Hl. apply no_id_not_stored in Hl.
      induction Hl as [|y l Hy _ IH]; cbn [filter]; [reflexivity|].
      rewrite Hy. cbn [negb]. now rewrite IH. }
    destruct (deleteDocument_cases id this)
      as [[Hno ->]|(before & x & after & Hl & Hx & Hb & ->)]; cbn [snd].
    - symmetry. now apply Hkeep.
    - cbn [documents]. rewrite Hl, filter_app. cbn [filter].
      rewrite (proj2 (Z.eqb_eq _ _) Hx). cbn [negb].
      destruct Hord as (Hs & _ & _).
      destruct (ids_in_order_unique _ before after x Hs Hl) as [_ Ha].
      rewrite Hx in Ha. now rewrite !Hkeep. }
  assert (Hgone : ~ In id (map doc_id (documents this'))).
  { rewrite Hdocs, in_map_iff. intros (d & Hd & Hin).
    apply filter_In in Hin. destruct Hin as [_ Hne].
    apply negb_true_iff, Z.eqb_neq in Hne. auto. }
  split; [exact Hdocs|]. split; [|split; [|exact Hord']].
  - unfold getDocument. cbn [fst]. rewrite find_none; [reflexivity|].
    now apply no_id_not_stored.
  - destruct (deleteDocument_cases id this')
      as [[_ ->]|(before & x & after & Hl & Hx & _ & _)]; [reflexivity|].
    exfalso. apply Hgone. rewrite Hl, map_app. cbn [map].
    apply in_or_app. right. now left.
Qed.

Lemma deleteDocument_removes_the_record_witness :
  documents (snd (deleteDocument 2
                    (sample_store [[1%float]; [2%float]; [3%float]])))
  = [sample_document 1 [1%float]; sample_document 3 [3%float]].
Proof.
  destruct (deleteDocument_removes_the_record 2
              (sample_store [[1%float]; [2%float]; [3%float]])) as [H _].
  - unfold ids_in_order, sample_store. cbn.
    repeat split; repeat constructor; cbn; lia.
  - rewrite H. reflexivity.
Defined.

(** ** The embedder, further *)

Lemma toLowerCase_char_idempotent (c : ascii) :
  toLowerCase_char (toLowerCase_char c) = toLowerCase_char c.
Proof.
  destruct c as [b0 b1 b2 b3 b4 b5 b6 b7].
  destruct b0, b1, b2, b3, b4, b5, b6, b7; reflexivity.
Qed.

Lemma toLowerCase_char_marks (c : ascii) :
  Ascii.eqb "?" (toLowerCase_char c) = Ascii.eqb "?" c /\
  Ascii.eqb "!" (toLowerCase_char c) = Ascii.eqb "!" c.
Proof.
  destruct c as [b0 b1 b2 b3 b4 b5 b6 b7].
  destruct b0, b1, b2, b3, b4, b5, b6, b7; split; reflexivity.
Qed.

Lemma toLowerCase_idempotent (text : jsstring) :
  toLowerCase (toLowerCase text) = toLowerCase text.
Proof.
  unfold toLowerCase. rewrite map_map. apply map_ext.
  apply toLowerCase_char_idempotent.
Qed.

Lemma includes_toLowerCase (text : jsstring) :
  includes (toLowerCase text) "?" = includes text "?" /\
  includes (toLowerCase text) "!" = includes text "!".
Proof.
  unfold includes, toLowerCase.
  induction text as [|c text [IH1 IH2]]; cbn [map existsb]; [now split|].
  destruct (toLowerCase_char_marks c) as [-> ->]. now rewrite IH1, IH2.
Qed.

Lemma generateEmbedding_toLowerCase (text : jsstring) :
  generateEmbedding (toLowerCase text) = generateEmbedding text.
Proof.
  unfold generateEmbedding.
  destruct (includes_toLowerCase text) as [-> ->].
  rewrite toLowerCase_idempotent.
  replace (length (toLowerCase text)) with (length text)
    by (unfold toLowerCase; now rewrite length_map).
  reflexivity.
Qed.

(** X7: the embedding does not see letter case: two texts with the same
    lowercase form have the same embedding, component for component. *)
Theorem generateEmbedding_ignores_case (s t : jsstring) :
  toLowerCase s = toLowerCase t -> generateEmbedding s = generateEmbedding t.
Proof.
  intros H.
  rewrite <- (generateEmbedding_toLowerCase s), H.
  apply generateEmbedding_toLowerCase.
Qed.

Lemma generateEmbedding_ignores_case_witness :
  generateEmbedding (str "Hello World?") = generateEmbedding (str "hELLO wORLD?").
Proof. apply generateEmbedding_ignores_case. reflexivity. Defined.

(** ** The embedder and the store together *)

Lemma serve_documents_from (r : request) (this : VectorStore) (d : document) :
  In d (documents (snd (serve r this))) ->
  In d (documents this) \/
  exists text embedding metadata now,
    r = AddDocument text embedding metadata now /\ doc_embedding d = embedding.
Proof.
  destruct r as [text e m now|id|id|q k t|q k dist]; cbn [serve snd].
  - unfold addDocument. cbn [snd documents]. intros H.
    apply in_app_or in H. destruct H as [H|[<-|[]]]; [now left|].
    right. now exists text, e, m, now.
  - destruct (deleteDocument_cases id this)
      as [[_ ->]|(before & x & after & Hl & _ & _ & ->)]; cbn [snd documents];
      intros H; left; [exact H|].
    rewrite Hl. apply in_app_or in H. apply in_or_app.
    destruct H as [H|H]; [now left|right; now right].
  - intros H. now left.
  - rewrite search_unfold.
    destruct (Array_map (score_document q) (documents this)); intros H; now left.
  - rewrite searchByDistance_unfold.
    destruct (Array_map (measure_document q) (documents this)); intros H;
      now left.
Qed.

Lemma serve_all_dimension (rs : list request) : forall this : VectorStore,
  Forall from_embedder rs ->
  Forall (fun d => length (doc_embedding d) = 10) (documents this) ->
  Forall (fun d => length (doc_embedding d) = 10)
         (documents (snd (serve_all rs this))).
Proof.
  induction rs as [|r rs IH]; intros this Hrs Hdim; [exact Hdim|].
  apply Forall_cons_iff in Hrs. destruct Hrs as [Hr Hrs].
  cbn [serve_all].
  assert (Hstep : Forall (fun d => length (doc_embedding d) = 10)
                         (documents (snd (serve r this)))).
  { apply Forall_forall. intros d Hd.
    destruct (serve_documents_from r this d Hd)
      as [Hin|(text & e & m & now & -> & He)].
    - rewrite Forall_forall in Hdim. now apply Hdim.
    - cbn [from_embedder] in Hr. rewrite He, Hr. reflexivity. }
  destruct (serve r this) as [ids this']. cbn [snd] in Hstep.
  specialize (IH this' Hrs Hstep).
  now destruct (serve_all rs this') as [ids' this''].
Qed.

(** X8: a store that was filled only with embeddings from
    [generateEmbedding] holds 10-dimensional records only, so [search]
    and [searchByDistance] with the embedding of any query text return
    and never throw the dimension error, and [getStats] reports the
    number of records and the dimension 10 (0 for the empty store). *)
Theorem embedder_store_answers_every_query (rs : list request) :
  Forall from_embedder rs ->
  let this := snd (serve_all rs constructor) in
  Forall (fun d => length (doc_embedding d) = 10) (documents this) /\
  (forall (text : jsstring) (topK : option Z) (threshold : option float),
     exists results,
       search (generateEmbedding text) topK threshold this
       = (Return results, this)) /\
  (forall (text : jsstring) (topK : option Z) (maxDistance : option float),
     exists results,
       searchByDistance (generateEmbedding text) topK maxDistance this
       = (Return results, this)) /\
  (exists s,
     getStats this = (Return s, this) /\
     totalDocuments s = length (documents this) /\
     dimensions s = match documents this with [] => 0 | _ :: _ => 10 end).
Proof.
  intros Hrs this.
  assert (Hdim : Forall (fun d => length (doc_embedding d) = 10)
                        (documents this)).
  { apply serve_all_dimension; [exact Hrs|constructor]. }
  split; [exact Hdim|]. split; [|split].
  - intros text topK threshold. rewrite search_unfold.
    destruct (Array_map_returns (score_document (generateEmbedding text))
                (documents this)) as (results & -> & _).
    + eapply Forall_impl; [|exact Hdim]. intros d Hd.
      apply score_document_returns. unfold same_dimension. now rewrite Hd.
    + eexists. reflexivity.
  - intros text topK maxDistance. rewrite searchByDistance_unfold.
    destruct (Array_map_returns (measure_document (generateEmbedding text))
                (documents this)) as (results & -> & _).
    + eapply Forall_impl; [|exact Hdim]. intros d Hd.
      apply measure_document_returns. unfold same_dimension. now rewrite Hd.
    + eexists. reflexivity.
  - unfold getStats. eexists. split; [reflexivity|].
    cbn [totalDocuments dimensions]. split; [reflexivity|].
    destruct (documents this) as [|first rest]; [reflexivity|].
    now apply Forall_inv in Hdim.
Qed.

Lemma embedder_store_answers_every_query_witness :
  exists results this,
    search (generateEmbedding (str "fox jumping")) (Some 2%Z) None this
    = (Return results, this) /\
    length (documents this) = 2.
Proof.
  destruct (embedder_store_answers_every_query
              [AddDocument (str "The quick brown fox jumps")
                 (generateEmbedding (str "The quick brown fox jumps"))
                 None (str "t1");
               AddDocument (str "A fast red fox leaps")
                 (generateEmbedding (str "A fast red fox leaps"))
                 None (str "t2")])
    as (_ & Hsearch & _ & _).
  - repeat constructor.
  - destruct (Hsearch (str "fox jumping") (Some 2%Z) None) as [results H].
    eexists. eexists. split; [exact H|reflexivity].
Defined.

(** ** The chunker, further *)

Lemma ceil_div_above (L n k : nat) : 1 <= n -> k < ceil_div L n -> k * n < L.
Proof.
  intros Hn Hk. destruct (Nat.lt_ge_cases (k * n) L) as [H|H]; [exact H|].
  exfalso. unfold ceil_div in Hk.
  assert (Hle : (L + n - 1) / n <= (k * n + (n - 1)) / n)
    by (apply Nat.Div0.div_le_mono; lia).
  rewrite Nat.div_add_l in Hle by lia.
  rewrite (Nat.div_small (n - 1) n) in Hle by lia. lia.
Qed.

(** The loop at the [j]-th window with [j] chunks made: with enough fuel
    it appends the remaining windows. *)
Lemma chunkText_loop_windows (text : jsstring) (n : nat) (Hn : 1 <= n) :
  forall (fuel j : nat) (chunkArray : list chunk_record),
  length chunkArray = j ->
  length text - j * n <= fuel * n ->
  chunkText_loop fuel text n (j * n) chunkArray
  = Some (chunkArray
          ++ map (window text n) (seq j (ceil_div (length text - j * n) n))).
Proof.
  induction fuel as [|fuel IH]; intros j acc Hacc Hfuel; cbn [chunkText_loop].
  - destruct (Nat.ltb_spec (j * n) (length text)) as [Hlt|Hge];
      [cbn in Hfuel; lia|].
    replace (length text - j * n) with 0 by lia.
    rewrite ceil_div_zero by exact Hn. cbn [seq map]. now rewrite app_nil_r.
  - destruct (Nat.ltb_spec (j * n) (length text)) as [Hlt|Hge].
    + replace (j * n + n) with (S j * n) at 1 by lia.
      rewrite IH.
      * rewrite <- app_assoc. cbn [app]. do 2 f_equal.
        rewrite (ceil_div_step (length text - j * n) n) by lia.
        cbn [seq map]. rewrite Hacc.
        replace (length text - S j * n) with (length text - j * n - n) by lia.
        reflexivity.
      * rewrite length_app. cbn [length]. lia.
      * cbn [Nat.mul] in Hfuel. lia.
    + replace (length text - j * n) with 0 by lia.
      rewrite ceil_div_zero by exact Hn. cbn [seq map]. now rewrite app_nil_r.
Qed.

(** X9: for a window of [n >= 1] characters [chunkText] is the list of
    the windows [text.slice(k n, k n + n)] for [k = 0 .. ceil(L / n) - 1],
    the [k]-th with the id [k + 1]; no chunk is empty and none is longer
    than [n]. *)
Theorem chunkText_is_the_windows (text : jsstring) (n fuel : nat) :
  1 <= n -> length text <= fuel ->
  chunkText fuel text n
  = Some (map (window text n) (seq 0 (ceil_div (length text) n))) /\
  Forall (fun c => 1 <= length (chunk c) <= n)
         (map (window text n) (seq 0 (ceil_div (length text) n))).
Proof.
  intros Hn Hfuel. split.
  - unfold chunkText.
    pose proof (chunkText_loop_windows text n Hn fuel 0 [] eq_refl) as H.
    cbn [app Nat.mul] in H. rewrite Nat.sub_0_r in H. apply H. nia.
  - apply Forall_forall. intros c Hc. apply in_map_iff in Hc.
    destruct Hc as (k & <- & Hk). apply in_seq in Hk.
    assert (Hlt : k * n < length text) by (apply ceil_div_above; lia).
    unfold window, String_slice. cbn [chunk].
    rewrite length_firstn, length_skipn. lia.
Qed.

Lemma chunkText_is_the_windows_witness :
  chunkText 7 (str "abcdefg") 3
  = Some (map (window (str "abcdefg") 3) (seq 0 (ceil_div 7 3))).
Proof.
  apply (chunkText_is_the_windows (str "abcdefg") 3 7).
  - lia.
  - cbn. lia.
Defined.

Lemma chunkText_loop_zero_window (text : jsstring) :
  text <> [] ->
  forall (fuel : nat) (chunkArray : list chunk_record),
  chunkText_loop fuel text 0 0 chunkArray = None.
Proof.
  intros Hne. induction fuel as [|fuel IH]; intros acc; cbn [chunkText_loop];
    destruct text as [|c rest]; try congruence; cbn [length Nat.ltb Nat.leb].
  - reflexivity.
  - apply IH.
Qed.

(** X10: with a window of 0 characters the loop of [chunkText] never
    ends on a text that is not empty: no number of iterations gives a
    result.  The empty text gives no chunk, whatever the window, without
    entering the loop. *)
Theorem chunkText_zero_window :
  (forall (text : jsstring) (fuel : nat),
     text <> [] -> chunkText fuel text 0 = None) /\
  (forall fuel n : nat, chunkText fuel [] n = Some []).
Proof.
  split.
  - intros text fuel Hne. now apply chunkText_loop_zero_window.
  - intros fuel n. destruct fuel; reflexivity.
Qed.

Lemma chunkText_zero_window_witness :
  chunkText 1000 (str "abc") 0 = None.
Proof.
  apply (proj1 chunkText_zero_window). discriminate.
Defined.

(** ** The searches, further *)

Section SortAndFilter.

Context {A : Type} (key : A -> Z).

Lemma insert_by_key_front (x : A) (l : list A) :
  Forall (fun z => (key x <= key z)%Z) l -> insert_by_key key x l = x :: l.
Proof.
  destruct 1 as [|y l Hy _]; cbn [insert_by_key]; [reflexivity|].
  destruct (Z.ltb_spec (key y) (key x)); [lia|reflexivity].
Qed.

Lemma insert_by_key_filter_any (p : A -> bool) (x : A) (l : list A) :
  StronglySorted (key_le key) l ->
  filter p (insert_by_key key x l)
  = if p x then insert_by_key key x (filter p l) else filter p l.
Proof.
  induction 1 as [|y l Hs IH Hy]; cbn [insert_by_key filter].
  - now destruct (p x).
  - destruct (Z.ltb_spec (key y) (key x)) as [L|G]; cbn [filter].
    + rewrite IH. destruct (p y), (p x); try reflexivity.
      cbn [insert_by_key].
      now rewrite (proj2 (Z.ltb_lt (key y) (key x)) L).
    + destruct (p x); [|reflexivity].
      symmetry. apply insert_by_key_front.
      assert (Hall : Forall (fun z => (key x <= key z)%Z) (y :: l)).
      { constructor; [exact G|].
        eapply Forall_impl; [|exact Hy]. unfold key_le. intros z Hz. lia. }
      apply Forall_forall. intros z Hz.
      rewrite Forall_forall in Hall. apply Hall.
      change (In z (filter p (y :: l))) in Hz. now apply filter_In in Hz.
Qed.

(** Filtering commutes with the stable sort. *)
Lemma sort_by_key_filter_commute (p : A -> bool) (l : list A) :
  filter p (sort_by_key key l) = sort_by_key key (filter p l).
Proof.
  induction l as [|x l IH]; cbn [sort_by_key fold_right filter];
    [reflexivity|].
  fold (sort_by_key key l).
  rewrite insert_by_key_filter_any by apply sort_by_key_sorted.
  rewrite IH. now destruct (p x).
Qed.

(** In a sorted list the records whose key is at most [c] are an initial
    part. *)
Lemma sorted_threshold_prefix (c : Z) (l : list A) :
  StronglySorted (key_le key) l ->
  prefix_of (filter (fun a => (key a <=? c)%Z) l) l.
Proof.
  induction 1 as [|x l Hs [n IH] Hx]; cbn [filter].
  - now exists 0.
  - destruct (Z.leb_spec (key x) c) as [L|G].
    + exists (S n). cbn [firstn]. now rewrite <- IH.
    + exists 0. cbn [firstn].
      clear IH. induction Hx as [|y l Hy _ IH']; cbn [filter]; [reflexivity|].
      apply StronglySorted_inv in Hs. destruct Hs as [Hs _].
      unfold key_le in Hy.
      destruct (Z.leb_spec (key y) c); [lia|now apply IH'].
Qed.

End SortAndFilter.

Lemma filter_narrower {A : Type} (p p' : A -> bool) (l : list A) :
  (forall a, p' a = true -> p a = true) ->
  filter p' l = filter p' (filter p l).
Proof.
  intros H. induction l as [|x l IH]; cbn [filter]; [reflexivity|].
  destruct (p' x) eqn:P'.
  - rewrite (H x P'). cbn [filter]. now rewrite P', IH.
  - destruct (p x); cbn [filter]; now rewrite ?P', IH.
Qed.

Lemma leb_trans (x y z : float) :
  PrimFloat.leb x y = true -> PrimFloat.leb y z = true ->
  PrimFloat.leb x z = true.
Proof.
  intros H1 H2.
  destruct (leb_not_nan _ _ H1) as [Nx Ny].
  destruct (leb_not_nan _ _ H2) as [_ Nz].
  rewrite leb_rank in * by assumption.
  apply Z.leb_le in H1, H2. apply Z.leb_le. lia.
Qed.

Lemma prefix_of_slices {A : Type} (small big : list A) (k k' : Z) :
  prefix_of small big -> (0 <= k' <= k)%Z ->
  prefix_of (Array_slice0 small k') (Array_slice0 big k).
Proof.
  intros [n ->] Hk.
  destruct (Array_slice0_count big k) as [-> _]; [lia|].
  destruct (Array_slice0_count (firstn n big) k') as [-> _]; [lia|].
  exists (Nat.min (Z.to_nat k') n).
  rewrite !firstn_firstn. f_equal. lia.
Qed.

Section NarrowerFilters.

Context {A : Type} (value : A -> float).

(** [sort((a, b) => b.value - a.value)] after [value >= bound]: a higher
    bound keeps an initial part. *)
Lemma descending_narrower (bound bound' : float) (l : list A) :
  PrimFloat.leb bound bound' = true ->
  prefix_of
    (Array_sort (fun a b => (value b - value a)%float)
       (filter (fun r => PrimFloat.leb bound' (value r)) l))
    (Array_sort (fun a b => (value b - value a)%float)
       (filter (fun r => PrimFloat.leb bound (value r)) l)).
Proof.
  intros Hb. destruct (leb_not_nan _ _ Hb) as [_ Nb'].
  set (kept := filter (fun r => PrimFloat.leb bound (value r)) l).
  rewrite (filter_narrower (fun r => PrimFloat.leb bound (value r))
             (fun r => PrimFloat.leb bound' (value r)))
    by (intros a Ha; now apply (leb_trans bound bound')).
  fold kept.
  assert (Hnum : Forall (is_number value) kept)
    by apply filter_at_least_numbers.
  rewrite !Array_sort_descending;
    [|exact Hnum|apply filter_at_least_numbers].
  rewrite <- sort_by_key_filter_commute.
  rewrite (filter_ext_in _
             (fun a => (- rank (value a) <=? - rank bound')%Z)).
  - apply (sorted_threshold_prefix (fun a => (- rank (value a))%Z)).
    apply sort_by_key_sorted.
  - intros a Ha.
    assert (Na : is_number value a).
    { rewrite Forall_forall in Hnum. apply Hnum.
      eapply Permutation_in; [apply sort_by_key_perm|exact Ha]. }
    rewrite leb_rank by assumption.
    destruct (Z.leb_spec (rank bound') (rank (value a)));
      destruct (Z.leb_spec (- rank (value a)) (- rank bound')); lia || reflexivity.
Qed.

(** [sort((a, b) => a.value - b.value)] after [value <= bound]: a lower
    bound keeps an initial part. *)
Lemma ascending_narrower (bound bound' : float) (l : list A) :
  PrimFloat.leb bound' bound = true ->
  prefix_of
    (Array_sort (fun a b => (value a - value b)%float)
       (filter (fun r => PrimFloat.leb (value r) bound') l))
    (Array_sort (fun a b => (value a - value b)%float)
       (filter (fun r => PrimFloat.leb (value r) bound) l)).
Proof.
  intros Hb. destruct (leb_not_nan _ _ Hb) as [Nb' _].
  set (kept := filter (fun r => PrimFloat.leb (value r) bound) l).
  rewrite (filter_narrower (fun r => PrimFloat.leb (value r) bound)
             (fun r => PrimFloat.leb (value r) bound'))
    by (intros a Ha; now apply (leb_trans (value a) bound')).
  fold kept.
  assert (Hnum : Forall (is_number value) kept)
    by apply filter_at_most_numbers.
  rewrite !Array_sort_ascending;
    [|exact Hnum|apply filter_at_most_numbers].
  rewrite <- sort_by_key_filter_commute.
  rewrite (filter_ext_in _ (fun a => (rank (value a) <=? rank bound')%Z)).
  - apply (sorted_threshold_prefix (fun a => rank (value a))).
    apply sort_by_key_sorted.
  - intros a Ha.
    assert (Na : is_number value a).
    { rewrite Forall_forall in Hnum. apply Hnum.
      eapply Permutation_in; [apply sort_by_key_perm|exact Ha]. }
    now apply leb_rank.
Qed.

End NarrowerFilters.

(** X11: narrowing a search only cuts the end of its result list.  With
    a higher threshold and a smaller count [topK' <= topK] (counts, not
    negative), [search] throws when the wider search throws, and else
    returns an initial part of the wider search's results; the same
    holds for [searchByDistance] with a lower [maxDistance]. *)
Theorem narrower_search_is_a_prefix (this : VectorStore) (q : vector)
  (topK topK' : option Z) (threshold threshold' maxDistance maxDistance'
   : option float) :
  (0 <= default 5 topK' <= default 5 topK)%Z ->
  (PrimFloat.leb (default 0%float threshold) (default 0%float threshold') = true ->
   match fst (search q topK threshold this) with
   | Throw e => fst (search q topK' threshold' this) = Throw e
   | Return results =>
       exists results',
         fst (search q topK' threshold' this) = Return results' /\
         prefix_of results' results
   end) /\
  (PrimFloat.leb (default PrimFloat.infinity maxDistance')
                 (default PrimFloat.infinity maxDistance) = true ->
   match fst (searchByDistance q topK maxDistance this) with
   | Throw e => fst (searchByDistance q topK' maxDistance' this) = Throw e
   | Return results =>
       exists results',
         fst (searchByDistance q topK' maxDistance' this) = Return results' /\
         prefix_of results' results
   end).
Proof.
  intros Hk. split; intros Hb.
  - rewrite !search_unfold.
    destruct (Array_map (score_document q) (documents this)) as [rs|e];
      cbn [fst]; [|reflexivity].
    eexists. split; [reflexivity|].
    apply prefix_of_slices; [|exact Hk].
    now apply descending_narrower.
  - rewrite !searchByDistance_unfold.
    destruct (Array_map (measure_document q) (documents this)) as [rs|e];
      cbn [fst]; [|reflexivity].
    eexists. split; [reflexivity|].
    apply prefix_of_slices; [|exact Hk].
    now apply ascending_narrower.
Qed.

Lemma narrower_search_is_a_prefix_witness :
  match fst (search [1%float; 0%float] None None
               (sample_store [[0%float; 1%float]; [1%float; 1%float];
                              [2%float; 0%float]])) with
  | Throw e => True
  | Return results =>
      exists results',
        fst (search [1%float; 0%float] (Some 1%Z) (Some 1%float)
               (sample_store [[0%float; 1%float]; [1%float; 1%float];
                              [2%float; 0%float]])) = Return results' /\
        prefix_of results' results
  end.
Proof.
  pose proof (proj1 (narrower_search_is_a_prefix
    (sample_store [[0%float; 1%float]; [1%float; 1%float]; [2%float; 0%float]])
    [1%float; 0%float] None (Some 1%Z) None (Some 1%float) None None
    ltac:(cbn; lia)) eq_refl) as H.
  destruct (fst (search [1%float; 0%float] None None _)); [exact H|exact I].
Defined.

Lemma filter_all {A : Type} (p : A -> bool) (l : list A) :
  Forall (fun a => p a = true) l -> filter p l = l.
Proof.
  induction 1 as [|x l Hx _ IH]; cbn [filter]; [reflexivity|].
  now rewrite Hx, IH.
Qed.

(** With one dimension and finite components throughout, a distance
    search that asks for enough results lists the whole store, nearest
    first. *)
Lemma searchByDistance_every_record (this : VectorStore)
  (q : vector) (topK : option Z) :
  Forall (same_dimension q) (documents this) ->
  Forall (fun x => Number_isFinite x = true) q ->
  Forall (fun d => Forall (fun x => Number_isFinite x = true) (doc_embedding d))
         (documents this) ->
  (Z.of_nat (length (documents this)) <= default 5 topK)%Z ->
  exists results,
    searchByDistance q topK None this = (Return results, this) /\
    Permutation (map distanced_doc results) (documents this) /\
    Forall (fun r => PrimFloat.is_nan (distance r) = false /\
                     PrimFloat.ltb (distance r) 0 = false) results /\
    StronglySorted (fun r r' => PrimFloat.leb (distance r) (distance r') = true)
                   results.
Proof.
  intros Hdim Hq Hdocs Hk.
  destruct (Array_map_returns (measure_document q) (documents this))
    as (rs & Hmap & HF).
  { eapply Forall_impl; [|exact Hdim]. apply measure_document_returns. }
  assert (Hrs : map distanced_doc rs = documents this /\
                Forall (fun r => PrimFloat.is_nan (distance r) = false /\
                                 PrimFloat.ltb (distance r) 0 = false) rs).
  { clear Hmap Hk. induction HF as [|d r docs rs Hr _ IH]; [now split|].
    apply Forall_cons_iff in Hdim, Hdocs.
    destruct Hdim as [Hd1 Hdim], Hdocs as [Hd2 Hdocs].
    destruct (IH Hdim Hdocs) as [IH1 IH2].
    apply measure_document_distanced_by in Hr. destruct Hr as [Hr1 Hr2].
    destruct (euclideanDistance_finite_number q (doc_embedding d))
      as (dist & Hdist & Hnan & Hpos); [now symmetry|exact Hq|exact Hd2|].
    rewrite Hdist in Hr2. injection Hr2 as Hr2.
    split.
    - cbn [map]. now rewrite Hr1, IH1.
    - constructor; [now rewrite <- Hr2|exact IH2]. }
  destruct Hrs as [Hdocs' Hboth].
  assert (Hnum : Forall (fun r => PrimFloat.is_nan (distance r) = false) rs)
    by (eapply Forall_impl; [|exact Hboth]; now intros r [Hr _]).
  rewrite searchByDistance_unfold, Hmap. cbn [default].
  rewrite filter_all
    by (eapply Forall_impl; [|exact Hnum]; intros r Hr; now apply leb_infinity).
  destruct (ascending_ranked distance rs Hnum) as (Hp & Hsorted & _).
  eexists. split; [reflexivity|].
  destruct (Array_slice0_count
              (Array_sort (fun a b => (distance a - distance b)%float) rs)
              (default 5%Z topK)) as [-> _].
  { lia. }
  rewrite firstn_all2.
  - split; [|split].
    + rewrite <- Hdocs'. now apply Permutation_map.
    + eapply Permutation_Forall; [symmetry; exact Hp|exact Hboth].
    + exact Hsorted.
  - rewrite (Permutation_length Hp), <- (length_map distanced_doc), Hdocs'. lia.
Qed.

(** X12: when the query and every stored embedding have one dimension
    and finite components, [searchByDistance] with no [maxDistance] and a
    [topK] of at least the number of stored records returns every stored
    record, each once: no record is lost to a distance that is NaN. *)
Theorem searchByDistance_returns_every_record (this : VectorStore)
  (q : vector) (topK : option Z) :
  Forall (same_dimension q) (documents this) ->
  Forall (fun x => Number_isFinite x = true) q ->
  Forall (fun d => Forall (fun x => Number_isFinite x = true) (doc_embedding d))
         (documents this) ->
  (Z.of_nat (length (documents this)) <= default 5 topK)%Z ->
  exists results,
    searchByDistance q topK None this = (Return results, this) /\
    Permutation (map distanced_doc results) (documents this) /\
    Forall (fun r => PrimFloat.is_nan (distance r) = false) results.
Proof.
  intros Hdim Hq Hdocs Hk.
  destruct (searchByDistance_every_record this q topK Hdim Hq Hdocs Hk)
    as (results & Hsearch & Hperm & Hboth & _).
  exists results. split; [exact Hsearch|]. split; [exact Hperm|].
  eapply Forall_impl; [|exact Hboth]. now intros r [Hr _].
Qed.

Lemma searchByDistance_returns_every_record_witness :
  exists results,
    searchByDistance [1%float; 2%float] None None
      (sample_store [[3%float; 4%float]; [1%float; 2%float]; [0%float; 0%float]])
    = (Return results,
       sample_store [[3%float; 4%float]; [1%float; 2%float]; [0%float; 0%float]]) /\
    length results = 3.
Proof.
  destruct (searchByDistance_returns_every_record
              (sample_store [[3%float; 4%float]; [1%float; 2%float];
                             [0%float; 0%float]])
              [1%float; 2%float] None)
    as (results & Hsearch & Hperm & _).
  - repeat constructor.
  - repeat constructor.
  - repeat constructor.
  - cbn. lia.
  - exists results. split; [exact Hsearch|].
    rewrite <- (length_map distanced_doc), (Permutation_length Hperm).
    reflexivity.
Defined.

(** ** Doubles that stay finite *)

Section Binary64Bounds.

Local Open Scope Z_scope.

Lemma shr_1_upper mrs K :
  0 <= K -> 0 <= shr_m mrs < 2 ^ K ->
  0 <= shr_m (shr_1 mrs) < 2 ^ Z.max (K - 1) 0.
Proof.
  intros HK H. destruct mrs as [m r s]. cbn [shr_m] in H.
  destruct (Z.eq_dec K 0) as [->|NK].
  - change (2 ^ 0) with 1 in H. assert (m = 0) by lia. subst m.
    cbn. lia.
  - rewrite Z.max_l by lia.
    replace K with (K - 1 + 1) in H by lia.
    rewrite pow2_double in H by lia.
    destruct m as [|[p|p|]|p]; cbn [shr_1 shr_m]; lia.
Qed.

Lemma iter_shr_1_upper p : forall mrs K,
  0 <= K -> 0 <= shr_m mrs < 2 ^ K ->
  0 <= shr_m (iter_pos shr_1 p mrs) < 2 ^ Z.max (K - Zpos p) 0.
Proof.
  induction p as [p IH|p IH|]; intros mrs K HK H; cbn [iter_pos].
  - replace (Z.max (K - Zpos p~1) 0)
      with (Z.max (Z.max (Z.max (K - 1) 0 - Zpos p) 0 - Zpos p) 0) by lia.
    apply IH; [lia|]. apply IH; [lia|]. now apply shr_1_upper.
  - replace (Z.max (K - Zpos p~0) 0)
      with (Z.max (Z.max (K - Zpos p) 0 - Zpos p) 0) by lia.
    apply IH; [lia|]. now apply IH.
  - now apply shr_1_upper.
Qed.

Lemma Zdigits2_upper m K : 0 <= K -> 0 <= m < 2 ^ K -> Zdigits2 m <= K.
Proof.
  intros HK H. destruct m as [|m|m]; cbn [Zdigits2]; try lia.
  pose proof (digits2_pos_bounds m) as [Hd _].
  assert (2 ^ (Zpos (digits2_pos m) - 1) < 2 ^ K) by lia.
  apply Z.pow_lt_mono_r_iff in H0; lia.
Qed.

Lemma Zdigits2_lower m J : 0 <= J -> 2 ^ J <= Zpos m -> J + 1 <= Zdigits2 (Zpos m).
Proof.
  intros HJ H. cbn [Zdigits2].
  pose proof (digits2_pos_bounds m) as [_ Hd].
  assert (2 ^ J < 2 ^ Zpos (digits2_pos m)) by lia.
  apply Z.pow_lt_mono_r_iff in H0; lia.
Qed.

(** The exponent after a right shift, and the size of what is left. *)
Lemma shr_fexp_upper m e l K :
  0 <= K -> 0 <= m < 2 ^ K ->
  snd (shr_fexp prec emax m e l)
  = Z.max e (Z.max (Zdigits2 m + e - 53) (-1074)) /\
  0 <= shr_m (fst (shr_fexp prec emax m e l))
    < 2 ^ Z.max (K - (snd (shr_fexp prec emax m e l) - e)) 0.
Proof.
  intros HK H. unfold shr_fexp, shr, fexp.
  change (SpecFloat.emin prec emax) with (-1074). change prec with 53.
  destruct (Z.max (Zdigits2 m + e - 53) (-1074) - e) as [|p|p] eqn:Hn;
    cbn [fst snd]; rewrite ?shr_m_of_loc.
  - split; [lia|]. replace (e - e) with 0 by lia.
    rewrite Z.sub_0_r, Z.max_l by lia. exact H.
  - split; [lia|]. replace (e + Zpos p - e) with (Zpos p) by lia.
    apply iter_shr_1_upper; [exact HK|]. now rewrite shr_m_of_loc.
  - split; [lia|]. replace (e - e) with 0 by lia.
    rewrite Z.sub_0_r, Z.max_l by lia. exact H.
Qed.

Lemma round_nearest_even_upper m l K :
  0 <= K -> 0 <= m < 2 ^ K -> 0 <= round_nearest_even m l < 2 ^ (K + 1).
Proof.
  intros HK H. rewrite pow2_double by exact HK.
  destruct l as [|[]]; cbn [round_nearest_even];
    try destruct (Z.even m); lia.
Qed.

(** Rounding a significand below [2^K] at an exponent [e] with
    [K + e <= 1023] does not overflow: the result is a zero or finite. *)
Lemma binary_round_aux_finite s m e l K :
  0 <= K -> 0 <= m < 2 ^ K -> e <= 971 -> K + e <= 1023 ->
  match binary_round_aux prec emax s m e l with
  | S754_zero s' => s' = s
  | S754_finite s' m' e' =>
      s' = s /\ e' <= 971 /\
      exists K', 0 <= K' /\ Zpos m' < 2 ^ K' /\
                 K' + e' <= Z.max (K + e) (-1074) + 1
  | _ => False
  end.
Proof.
  intros HK Hm He HKe. unfold binary_round_aux.
  destruct (shr_fexp_upper m e l K HK Hm) as [He1 Hm1].
  pose proof (Zdigits2_upper m K HK Hm) as Hd.
  destruct (shr_fexp prec emax m e l) as [mrs' e']. cbn [fst snd] in *.
  set (K1 := Z.max (K - (e' - e)) 0) in *.
  assert (HK1 : 0 <= K1) by lia.
  pose proof (round_nearest_even_upper _ (loc_of_shr_record mrs') K1 HK1 Hm1)
    as Hm2.
  set (m1 := round_nearest_even (shr_m mrs') (loc_of_shr_record mrs')) in *.
  assert (HK2 : 0 <= K1 + 1) by lia.
  destruct (shr_fexp_upper m1 e' loc_Exact (K1 + 1) HK2 Hm2) as [He2 Hm3].
  pose proof (Zdigits2_upper m1 (K1 + 1) HK2 Hm2) as Hd1.
  destruct (shr_fexp prec emax m1 e' loc_Exact) as [mrs'' e'']. cbn [fst snd] in *.
  destruct (shr_m mrs'') as [|q|q] eqn:Hq; try lia; [reflexivity|].
  destruct (Z.leb_spec e'' (emax - prec)) as [Hle|Hgt].
  - split; [reflexivity|]. change (emax - prec) with 971 in Hle.
    split; [exact Hle|].
    exists (Z.max (K1 + 1 - (e'' - e')) 0). repeat split; lia.
  - change (emax - prec) with 971 in Hgt. lia.
Qed.

(** The left shift before a rounding. *)
Lemma shl_align_bounds m e e' K :
  0 <= K -> Zpos m < 2 ^ K ->
  snd (shl_align m e e') = Z.min e e' /\
  Zpos (fst (shl_align m e e')) < 2 ^ (K + (e - snd (shl_align m e e'))) /\
  2 ^ (e - snd (shl_align m e e')) <= Zpos (fst (shl_align m e e')).
Proof.
  intros HK H. unfold shl_align.
  destruct (e' - e) as [|d|d] eqn:Hd; cbn [fst snd].
  - replace (e - e) with 0 by lia. rewrite Z.add_0_r. cbn. lia.
  - replace (e - e) with 0 by lia. rewrite Z.add_0_r. cbn. lia.
  - replace (e - e') with (Zpos d) by lia. rewrite iter_xO_value.
    rewrite Z.pow_add_r by lia.
    assert (0 < 2 ^ Zpos d) by (apply Z.pow_pos_nonneg; lia).
    split; [lia|]. split; nia.
Qed.

(** A right shift keeps a significand of 53 digits or more above
    [2^52], and the magnitude it stands for does not fall. *)
Lemma shr_fexp_lower m e l J :
  0 <= J -> 2 ^ J <= Zpos m -> -1074 <= e ->
  exists J', 0 <= J' /\
    2 ^ J' <= shr_m (fst (shr_fexp prec emax (Zpos m) e l)) /\
    J + e <= J' + snd (shr_fexp prec emax (Zpos m) e l) /\
    -1074 <= snd (shr_fexp prec emax (Zpos m) e l).
Proof.
  intros HJ Hm He.
  pose proof (Zdigits2_lower m J HJ Hm) as Hd.
  unfold shr_fexp, shr, fexp. cbn [Zdigits2] in *.
  change (SpecFloat.emin prec emax) with (-1074). change prec with 53.
  destruct (Z.max (Zpos (digits2_pos m) + e - 53) (-1074) - e) as [|p|p] eqn:Hn;
    cbn [fst snd]; rewrite ?shr_m_of_loc.
  - exists J. repeat split; lia.
  - exists (Zpos (digits2_pos m) - 1 - Zpos p). repeat split; try lia.
    apply iter_shr_1_lower; [lia|]. rewrite shr_m_of_loc.
    apply digits2_pos_bounds.
  - exists J. repeat split; lia.
Qed.

Lemma binary_round_aux_lower s m e l J :
  0 <= J -> 2 ^ J <= Zpos m -> -1074 <= e ->
  match binary_round_aux prec emax s (Zpos m) e l with
  | S754_finite _ m' e' =>
      exists J', 0 <= J' /\ 2 ^ J' <= Zpos m' /\ J + e <= J' + e'
  | S754_infinity _ => True
  | _ => False
  end.
Proof.
  intros HJ Hm He. unfold binary_round_aux.
  destruct (shr_fexp_lower m e l J HJ Hm He) as (J1 & HJ1 & Hm1 & HJe1 & He1).
  destruct (shr_fexp prec emax (Zpos m) e l) as [mrs' e']. cbn [fst snd] in *.
  assert (H0 : 0 < 2 ^ J1) by (apply Z.pow_pos_nonneg; lia).
  assert (Hr : shr_m mrs'
               <= round_nearest_even (shr_m mrs') (loc_of_shr_record mrs')).
  { destruct (loc_of_shr_record mrs') as [|[]]; cbn [round_nearest_even];
      try destruct (Z.even (shr_m mrs')); lia. }
  destruct (round_nearest_even (shr_m mrs') (loc_of_shr_record mrs'))
    as [|m1|m1]; try lia.
  destruct (shr_fexp_lower m1 e' loc_Exact J1 HJ1) as (J2 & HJ2 & Hm2 & HJe2 & He2);
    [lia|lia|].
  destruct (shr_fexp prec emax (Zpos m1) e' loc_Exact) as [mrs'' e''].
  cbn [fst snd] in *.
  assert (H1 : 0 < 2 ^ J2) by (apply Z.pow_pos_nonneg; lia).
  destruct (shr_m mrs'') as [|q|q]; try lia.
  destruct (e'' <=? emax - prec); [|exact I].
  exists J2. repeat split; lia.
Qed.

End Binary64Bounds.

Section Binary64Quotients.

Local Open Scope Z_scope.

Lemma SFbelow_finite (B : Z) (x : spec_float) :
  SFbelow B x ->
  match x with S754_zero _ | S754_finite _ _ _ => True | _ => False end.
Proof. destruct x; cbn; intros H; try contradiction; exact I. Qed.

(** The double of an integer below 2^63: a zero for 0, else finite,
    positive, at least 1 and below 2^64. *)
Lemma binary_normalize_integer (n : Z) :
  0 <= n < 2 ^ 63 ->
  SFnot_negative (binary_normalize prec emax n 0 false) /\
  SFbelow 64 (binary_normalize prec emax n 0 false) /\
  (1 <= n -> SFone_or_more (binary_normalize prec emax n 0 false)).
Proof.
  intros Hn. destruct n as [|p|p]; try lia.
  - cbn. repeat split; try exact I. lia.
  - cbn [binary_normalize]. unfold binary_round.
    destruct (shl_align_bounds p 0
                (fexp prec emax (Zpos (digits2_pos p) + 0)) 63)
      as (Hs & Hup & Hlo); [lia|lia|].
    destruct (shl_align p 0 _) as [mz ez]. cbn [fst snd] in *.
    assert (Hez : -1074 <= ez <= 0).
    { unfold fexp in Hs. change (SpecFloat.emin prec emax) with (-1074) in Hs.
      lia. }
    pose proof (binary_round_aux_finite false (Zpos mz) ez loc_Exact
                  (63 + (0 - ez))) as Hfin.
    pose proof (binary_round_aux_lower false mz ez loc_Exact (0 - ez)) as Hlow.
    destruct (binary_round_aux prec emax false (Zpos mz) ez loc_Exact)
      as [s|s| |s m e].
    + exfalso. apply Hlow; lia.
    + exfalso. apply Hfin; lia.
    + exfalso. apply Hfin; lia.
    + destruct Hfin as (-> & He & K & HK & Hm & HKe); try lia.
      destruct Hlow as (J & HJ & Hm' & HJe); try lia.
      split; [exact I|]. split.
      * split; [exact He|]. exists K. repeat split; lia.
      * intros _. exists J. repeat split; lia.
Qed.

(** A quotient of a datum below [2^B] by a datum of 1 or more, with
    [B <= 1000], is a zero or finite. *)
Lemma SFdiv_below (B : Z) (x y : spec_float) :
  B <= 1000 -> SFbelow B x -> SFone_or_more y ->
  match SF64div x y with
  | S754_zero _ | S754_finite _ _ _ => True
  | _ => False
  end.
Proof.
  intros HB Hx Hy.
  destruct x as [sx|sx| |sx mx ex], y as [sy|sy| |sy my ey];
    cbn [SFbelow SFone_or_more] in Hx, Hy; try contradiction; [exact I|].
  destruct Hx as (Hex & K & HK & Hmx & HKe).
  destruct Hy as (J & HJ & Hmy & HJe).
  unfold SF64div, SFdiv, SFdiv_core_binary.
  pose proof (Zdigits2_upper (Zpos mx) K HK ltac:(lia)) as Hdx.
  pose proof (Zdigits2_lower my J HJ Hmy) as Hdy.
  set (e' := Z.min (fexp prec emax (Zdigits2 (Zpos mx) + ex
                                    - (Zdigits2 (Zpos my) + ey))) (ex - ey)).
  assert (He' : e' <= ex - ey /\ e' <= Z.max (B - 54) (-1074)).
  { subst e'. unfold fexp. change (SpecFloat.emin prec emax) with (-1074).
    change prec with 53. lia. }
  set (s := ex - ey - e').
  set (m' := match s with
             | Zpos _ => Z.shiftl (Zpos mx) s
             | Z0 => Zpos mx
             | Zneg _ => Z0
             end).
  assert (Hm' : 0 <= m' < 2 ^ (K + s)).
  { subst m'. assert (0 <= s) by (subst s; lia).
    destruct s as [|p|p] eqn:Hs; try lia.
    - rewrite Z.add_0_r. lia.
    - rewrite Z.shiftl_mul_pow2 by lia. rewrite Z.pow_add_r by lia.
      assert (0 < 2 ^ Zpos p) by (apply Z.pow_pos_nonneg; lia). nia. }
  assert (Hs : 0 <= s) by (subst s; lia).
  set (Kq := Z.max (K + s - J) 0).
  assert (Hq : 0 <= m' / Zpos my < 2 ^ Kq).
  { split; [apply Z.div_pos; lia|].
    apply Z.div_lt_upper_bound; [lia|].
    apply Z.lt_le_trans with (2 ^ (K + s)); [lia|].
    apply Z.le_trans with (2 ^ (J + Kq)).
    - apply Z.pow_le_mono_r; subst Kq; lia.
    - rewrite Z.pow_add_r by (subst Kq; lia).
      assert (0 < 2 ^ Kq) by (apply Z.pow_pos_nonneg; subst Kq; lia). nia. }
  unfold Z.div in Hq.
  destruct (Z.div_eucl m' (Zpos my)) as [q r].
  pose proof (binary_round_aux_finite (xorb sx sy) q e'
                (new_location (Zpos my) r) Kq) as Hfin.
  destruct (binary_round_aux prec emax (xorb sx sy) q e' _); try exact I;
    exfalso; apply Hfin; subst Kq s; lia.
Qed.

(** A quotient of a number that is not below zero by a positive finite
    datum is a number that is not below zero. *)
Lemma SFdiv_not_negative (x : spec_float) (m : positive) (e : Z) :
  SFnot_negative x -> SFnot_negative (SF64div x (S754_finite false m e)).
Proof.
  destruct x as [sx|sx| |sx mx ex]; cbn [SFnot_negative]; intros H;
    try contradiction; try exact I.
  - destruct sx; [contradiction|exact I].
  - destruct sx; [contradiction|].
    unfold SF64div, SFdiv, SFdiv_core_binary.
    set (m' := match _ - _ with
               | Zpos _ => Z.shiftl _ _ | Z0 => _ | Zneg _ => Z0 end).
    assert (Hm' : 0 <= m').
    { subst m'. destruct (_ - _) as [|p|p]; try lia.
      apply Z.shiftl_nonneg. lia. }
    pose proof (Z.div_pos m' (Zpos m) Hm' ltac:(lia)) as Hq.
    unfold Z.div in Hq. destruct (Z.div_eucl m' (Zpos m)) as [q r].
    apply SFof_sign_not_negative, binary_round_aux_of_sign. exact Hq.
Qed.

End Binary64Quotients.

(** ** The embedder gives finite numbers *)

Lemma Number_of_nat_spec (n : nat) :
  SFnot_negative (Prim2SF (Number_of_nat n)) /\
  SFbelow 64 (Prim2SF (Number_of_nat n)) /\
  (1 <= n -> (Z.of_nat n < 2 ^ 63)%Z ->
   SFone_or_more (Prim2SF (Number_of_nat n))).
Proof.
  unfold Number_of_nat. rewrite of_uint63_spec.
  assert (HwB : wB = (2 ^ 63)%Z) by reflexivity.
  pose proof (Uint63.to_Z_bounded (Uint63.of_Z (Z.of_nat n))) as Hb.
  rewrite HwB in Hb.
  destruct (binary_normalize_integer _ Hb) as (H1 & H2 & H3).
  split; [exact H1|]. split; [exact H2|].
  intros Hn Hlt. apply H3.
  rewrite Uint63.of_Z_spec, HwB, Z.mod_small; lia.
Qed.

Lemma JS_or_zero_finite (x : float) :
  match Prim2SF x with
  | S754_zero _ | S754_finite _ _ _ | S754_nan => True
  | S754_infinity _ => False
  end ->
  Number_isFinite (JS_or x 0) = true.
Proof.
  intros H. unfold JS_or, truthy.
  destruct (PrimFloat.eqb x 0 || PrimFloat.is_nan x) eqn:E; cbn [negb];
    [reflexivity|].
  apply orb_false_iff in E. destruct E as [_ E]. rewrite is_nan_spec in E.
  unfold Number_isFinite.
  destruct (Prim2SF x); try reflexivity; try contradiction; discriminate.
Qed.

(** [count / length || 0] is finite: a count over a positive length is a
    finite quotient, and [0 / 0] is NaN, which [|| 0] turns into 0. *)
Lemma ratio_or_zero_finite (count total : nat) :
  (total = 0 -> count = 0) -> (Z.of_nat total < 2 ^ 63)%Z ->
  Number_isFinite
    (JS_or (Number_of_nat count / Number_of_nat total)%float 0%float) = true.
Proof.
  intros Hzero Hlt. destruct total as [|total].
  - rewrite (Hzero eq_refl). reflexivity.
  - apply JS_or_zero_finite. rewrite FloatAxioms.div_spec.
    destruct (Number_of_nat_spec count) as (_ & Hc & _).
    destruct (Number_of_nat_spec (S total)) as (_ & _ & Ht).
    pose proof (SFdiv_below 64 _ _ ltac:(lia) Hc (Ht ltac:(lia) Hlt)) as H.
    destruct (SF64div _ _); try exact I; contradiction.
Qed.

Lemma quotient_by_constant_finite (n : nat) (c : float) :
  SFone_or_more (Prim2SF c) ->
  Number_isFinite (Number_of_nat n / c)%float = true.
Proof.
  intros Hc. unfold Number_isFinite. rewrite FloatAxioms.div_spec.
  destruct (Number_of_nat_spec n) as (_ & Hn & _).
  pose proof (SFdiv_below 64 _ _ ltac:(lia) Hn Hc) as H.
  destruct (SF64div _ _); try reflexivity; contradiction.
Qed.

Lemma ten_one_or_more : SFone_or_more (Prim2SF 10).
Proof. exists 52%Z. vm_compute. repeat split; discriminate. Qed.

Lemma fifty_one_or_more : SFone_or_more (Prim2SF 50).
Proof. exists 52%Z. vm_compute. repeat split; discriminate. Qed.

Lemma Math_min_one_finite (x : float) :
  SFnot_negative (Prim2SF x) -> Number_isFinite (Math_min x 1) = true.
Proof.
  intros Hx. destruct (not_negative_number x Hx) as [Hnan _].
  unfold Math_min. rewrite Hnan. change (PrimFloat.is_nan 1) with false.
  cbn [orb].
  destruct (Prim2SF x) as [s|s| |s m e] eqn:E; cbn [SFnot_negative] in Hx;
    try contradiction.
  - assert (Hf : Number_isFinite x = true) by (unfold Number_isFinite; now rewrite E).
    destruct (PrimFloat.ltb x 1); [exact Hf|].
    destruct (PrimFloat.ltb 1 x); [reflexivity|].
    destruct (PrimFloat.is_zero x && PrimFloat.get_sign x); [exact Hf|reflexivity].
  - destruct s; [contradiction|].
    rewrite !FloatAxioms.ltb_spec, E.
    change (SFltb (S754_infinity false) (Prim2SF 1)) with false.
    change (SFltb (Prim2SF 1) (S754_infinity false)) with true.
    reflexivity.
  - destruct s; [contradiction|].
    assert (Hf : Number_isFinite x = true) by (unfold Number_isFinite; now rewrite E).
    destruct (PrimFloat.ltb x 1); [exact Hf|].
    destruct (PrimFloat.ltb 1 x); [reflexivity|].
    destruct (PrimFloat.is_zero x && PrimFloat.get_sign x); [exact Hf|reflexivity].
Qed.

Lemma split_run_count (s : jsstring) : forall (in_run : bool) (piece : jsstring),
  1 <= length (split_run in_run piece s) <= length s + 1.
Proof.
  induction s as [|c s IH]; intros in_run piece; cbn [split_run length].
  - lia.
  - destruct (is_whitespace c).
    + destruct in_run.
      * specialize (IH true piece). lia.
      * specialize (IH true []). cbn [length]. lia.
    + specialize (IH false (piece ++ [c])). lia.
Qed.

Lemma match_count_le (class : ascii -> bool) (s : jsstring) :
  match_count class s <= length s.
Proof. unfold match_count. apply filter_length_le. Qed.

(** The average word length over 10, before the cap: a number that is not
    below zero. *)
Lemma average_word_length_not_negative (words : list jsstring) :
  1 <= length words -> (Z.of_nat (length words) < 2 ^ 63)%Z ->
  SFnot_negative
    (Prim2SF (fold_left (fun sum w => (sum + Number_of_nat (length w))%float)
                        words 0%float
              / Number_of_nat (length words) / 10)%float).
Proof.
  intros H1 H2.
  assert (Hsum : SFnot_negative
            (Prim2SF (fold_left
                        (fun sum w => (sum + Number_of_nat (length w))%float)
                        words 0%float))).
  { apply (fold_left_invariant (fun s => SFnot_negative (Prim2SF s))).
    - intros acc w _ Hacc. rewrite FloatAxioms.add_spec.
      apply SFadd_not_negative; [exact Hacc|]. apply Number_of_nat_spec.
    - rewrite Prim2SF_zero. exact I. }
  rewrite !FloatAxioms.div_spec.
  destruct (Number_of_nat_spec (length words)) as (Hn & _ & Ho).
  specialize (Ho H1 H2).
  destruct (Prim2SF (Number_of_nat (length words))) as [s|s| |s m e];
    cbn [SFone_or_more] in Ho; try contradiction.
  destruct s; [contradiction|].
  change (Prim2SF 10) with (S754_finite false 5629499534213120 (-49)).
  apply SFdiv_not_negative, SFdiv_not_negative, Hsum.
Qed.

Lemma generateEmbedding_finite (text : jsstring) :
  (Z.of_nat (length text) < 2 ^ 53)%Z ->
  Forall (fun x => Number_isFinite x = true) (generateEmbedding text).
Proof.
  intros Hlen. unfold generateEmbedding.
  set (normalized := toLowerCase text).
  set (words := split_whitespace normalized).
  assert (Hn : length normalized = length text)
    by (subst normalized; unfold toLowerCase; apply length_map).
  assert (Hw : 1 <= length words <= length text + 1).
  { subst words. unfold split_whitespace. rewrite <- Hn. apply split_run_count. }
  assert (H63 : (2 ^ 53 < 2 ^ 63)%Z) by (apply Z.pow_lt_mono_r; lia).
  assert (Hcount : forall class,
            length normalized = 0 -> match_count class normalized = 0).
  { intros class H0. pose proof (match_count_le class normalized). lia. }
  repeat constructor.
  - apply quotient_by_constant_finite, ten_one_or_more.
  - apply quotient_by_constant_finite, fifty_one_or_more.
  - apply ratio_or_zero_finite; [apply Hcount|lia].
  - apply ratio_or_zero_finite; [apply Hcount|lia].
  - apply ratio_or_zero_finite; [apply Hcount|lia].
  - apply ratio_or_zero_finite; lia.
  - destruct (Nat.ltb_spec 0 (length words)) as [_|H0]; [|lia].
    apply Math_min_one_finite, average_word_length_not_negative; lia.
  - apply ratio_or_zero_finite; [|lia]. rewrite <- Hn. apply Hcount.
  - destruct (includes text "?"); reflexivity.
  - destruct (includes text "!"); reflexivity.
Qed.

(** X13: for every text shorter than 2^53 code units each of the ten
    components of its embedding is a finite number: none is NaN and none
    is [Infinity]; and as a query against itself the embedding has
    Euclidean distance 0. *)
Theorem generateEmbedding_is_finite (text : jsstring) :
  (Z.of_nat (length text) < 2 ^ 53)%Z ->
  Forall (fun x => Number_isFinite x = true) (generateEmbedding text) /\
  Forall (fun x => PrimFloat.is_nan x = false) (generateEmbedding text) /\
  euclideanDistance (generateEmbedding text) (generateEmbedding text)
  = Return 0%float.
Proof.
  intros Hlen. pose proof (generateEmbedding_finite text Hlen) as H.
  split; [exact H|]. split.
  - eapply Forall_impl; [|exact H]. intros x Hx.
    rewrite is_nan_spec. apply Number_isFinite_spec in Hx.
    now destruct (Prim2SF x).
  - now apply euclideanDistance_self.
Qed.

Lemma generateEmbedding_is_finite_witness :
  Forall (fun x => Number_isFinite x = true)
         (generateEmbedding (str "Is this finite? Yes!")).
Proof.
  apply generateEmbedding_is_finite. cbn. lia.
Defined.

(** ** From text to search results *)

Lemma serve_all_embeddings (P : vector -> Prop) (rs : list request) :
  forall this : VectorStore,
  Forall (fun r => match r with
                   | AddDocument _ embedding _ _ => P embedding
                   | _ => True
                   end) rs ->
  Forall (fun d => P (doc_embedding d)) (documents this) ->
  Forall (fun d => P (doc_embedding d)) (documents (snd (serve_all rs this))).
Proof.
  induction rs as [|r rs IH]; intros this Hrs HP; [exact HP|].
  apply Forall_cons_iff in Hrs. destruct Hrs as [Hr Hrs].
  cbn [serve_all].
  assert (Hstep : Forall (fun d => P (doc_embedding d))
                         (documents (snd (serve r this)))).
  { apply Forall_forall. intros d Hd.
    destruct (serve_documents_from r this d Hd)
      as [Hin|(text & e & m & now & -> & He)].
    - rewrite Forall_forall in HP. now apply HP.
    - now rewrite He. }
  destruct (serve r this) as [ids this']. cbn [snd] in Hstep.
  specialize (IH this' Hrs Hstep).
  now destruct (serve_all rs this') as [ids' this''].
Qed.

(** X14: from text to results.  In a store filled only with the
    embeddings of texts, [searchByDistance] for the embedding of a query
    text, with no [maxDistance] and a [topK] of at least the number of
    stored records, returns every stored record, each once, nearest
    first, with a distance that is a number and not below zero. *)
Theorem embedder_store_lists_every_record (rs : list request)
  (text : jsstring) (topK : option Z) :
  Forall from_embedder rs -> Forall of_short_text rs ->
  (Z.of_nat (length text) < 2 ^ 53)%Z ->
  let this := snd (serve_all rs constructor) in
  (Z.of_nat (length (documents this)) <= default 5 topK)%Z ->
  exists results,
    searchByDistance (generateEmbedding text) topK None this
    = (Return results, this) /\
    Permutation (map distanced_doc results) (documents this) /\
    Forall (fun r => PrimFloat.is_nan (distance r) = false /\
                     PrimFloat.ltb (distance r) 0 = false) results /\
    StronglySorted (fun r r' => PrimFloat.leb (distance r) (distance r') = true)
                   results.
Proof.
  intros Hrs Hshort Htext this Hk.
  assert (Hstore : Forall (fun d => length (doc_embedding d) = 10 /\
                             Forall (fun x => Number_isFinite x = true)
                                    (doc_embedding d))
                          (documents this)).
  { apply (serve_all_embeddings
             (fun e => length e = 10 /\
                       Forall (fun x => Number_isFinite x = true) e));
      [|constructor].
    rewrite Forall_forall in Hrs, Hshort. apply Forall_forall.
    intros r Hr. specialize (Hrs r Hr). specialize (Hshort r Hr).
    destruct r as [t e m now| | | |]; try exact I.
    cbn [from_embedder of_short_text] in Hrs, Hshort. subst e.
    split; [reflexivity|now apply generateEmbedding_finite]. }
  apply searchByDistance_every_record.
  - eapply Forall_impl; [|exact Hstore]. intros d [Hd _].
    unfold same_dimension. now rewrite Hd.
  - now apply generateEmbedding_finite.
  - eapply Forall_impl; [|exact Hstore]. now intros d [_ Hd].
  - exact Hk.
Qed.

Lemma embedder_store_lists_every_record_witness :
  exists results,
    searchByDistance (generateEmbedding (str "ab")) None None
      (snd (serve_all
              [AddDocument (str "a b") (generateEmbedding (str "a b")) None
                           (str "t0");
               AddDocument (str "Ab?") (generateEmbedding (str "Ab?")) None
                           (str "t1")]
              constructor))
    = (Return results,
       snd (serve_all
              [AddDocument (str "a b") (generateEmbedding (str "a b")) None
                           (str "t0");
               AddDocument (str "Ab?") (generateEmbedding (str "Ab?")) None
                           (str "t1")]
              constructor)) /\
    length results = 2.
Proof.
  destruct (embedder_store_lists_every_record
              [AddDocument (str "a b") (generateEmbedding (str "a b")) None
                           (str "t0");
               AddDocument (str "Ab?") (generateEmbedding (str "Ab?")) None
                           (str "t1")]
              (str "ab") None)
    as (results & Hsearch & Hperm & _).
  - repeat constructor.
  - repeat constructor.
  - cbn. lia.
  - cbn. lia.
  - exists results. split; [exact Hsearch|].
    rewrite <- (length_map distanced_doc), (Permutation_length Hperm).
    reflexivity.
Defined.
